(** * yaraprocessor: stream segmentation and offset accounting

    A shallow embedding of [yaraprocessor.Processor] (yaraprocessor.py):
    the constructor with [_prepare_rules], [__str__], the windowing
    generator [_window], [analyze], [results], [clear_results], the [data]
    property and the script's main block, followed by the properties of
    the chunking and offset-accounting layer.

    Conventions of the embedding.
    - Python [int] is [Z]; a Python 2 [str] used as a byte buffer is
      [list ascii]; names and identifiers are [string].
    - [sequence[i:j]] is [py_slice], with CPython's treatment of negative
      and out-of-range bounds.
    - An exception is a value of [exn]; a call that may raise returns a
      [result].  A loop that never ends is [None] in an [option].
    - [yara] is outside the repository: a compiled rule set is the function
      that its [match] method computes. *)

From Stdlib Require Import ZArith Bool Ascii String DecimalString DecimalNat Lia
  List.
Import ListNotations.

Local Open Scope Z_scope.

(** ** Python sequences *)

Module Py.
Section Sequences.
Context {A : Type}.

Definition len (l : list A) : Z := Z.of_nat (length l).

(** Normalisation of one slice bound against a length (what
    [PySlice_AdjustIndices] does for a step of 1): a negative bound counts
    from the end, and the outcome is clamped to [0 .. len]. *)
Definition slice_bound (n k : Z) : Z :=
  if k <? 0 then Z.max 0 (k + n) else Z.min k n.

(** [l[start:stop]]; [stop = None] is the open slice [l[start:]]. *)
Definition py_slice (l : list A) (start : Z) (stop : option Z) : list A :=
  let a := slice_bound (len l) start in
  let b := match stop with
           | Some j => slice_bound (len l) j
           | None => len l
           end in
  firstn (Z.to_nat (b - a)) (skipn (Z.to_nat a) l).

(** Truth value of a sequence: empty is false. *)
Definition truthy (l : list A) : bool :=
  match l with [] => false | _ :: _ => true end.

End Sequences.
End Py.
Import Py.

(** ** The windowing generator *)

Section Window.
Context {A : Type}.

(** The body of [Processor._window] from the loop variable [i] on.  Each
    unit of [fuel] pays for one evaluation of [sequence[i: i + size]];
    [None] means the generator was still yielding when the fuel ran out. *)
Fixpoint window_loop (fuel : nat) (sequence : list A) (size step i : Z)
  : option (list (list A)) :=
  match fuel with
  | O => None
  | S fuel' =>
      let result := py_slice sequence i (Some (i + size)) in
      if truthy result
      then option_map (cons result)
                      (window_loop fuel' sequence size step (i + step))
      else Some []
  end.

(** Enough iterations for every generator that stops at all (see
    [window_diverges_iff]). *)
Definition window_fuel (sequence : list A) (size : Z) : nat :=
  S (S (length sequence + Z.abs_nat size)).

(** [Processor._window(sequence, size, step)], drained: the list of the
    values it yields, or [None] when it yields for ever. *)
Definition _window (sequence : list A) (size step : Z)
  : option (list (list A)) :=
  window_loop (window_fuel sequence size) sequence size step 0.

(** The slice taken [k] turns after the loop variable was [i]. *)
Definition window_slice_from (sequence : list A) (size step i : Z)
    (k : nat) : list A :=
  py_slice sequence (i + Z.of_nat k * step)
           (Some (i + Z.of_nat k * step + size)).

(** The [k]-th slice, [sequence[k*step : k*step + size]]. *)
Definition window_slice (sequence : list A) (size step : Z) (k : nat)
  : list A :=
  py_slice sequence (Z.of_nat k * step) (Some (Z.of_nat k * step + size)).

End Window.

(** ** Matcher results and formatted records *)

Definition bytes : Type := list ascii.

(** A [yara.Match]: the rule that fired and, for each string hit, the
    tuple [(offset, identifier, matched data)]. *)
Module YaraMatch.
Record t : Type := mk
  { rule : string;
    strings : list (Z * string * bytes) }.
End YaraMatch.

(** A compiled rule set, as its [match(data=...)] method. *)
Definition Rules : Type := bytes -> list YaraMatch.t.

(** An entry of a formatted record's ['strings'] list. *)
Module Hit.
Record t : Type := mk
  { offset : Z;
    rule_id : String.string;
    string : String.string }.
End Hit.

(** A formatted record: the dictionary that [analyze] builds per match. *)
Module ScanResult.
Record t : Type := mk
  { result : string;
    strings : list Hit.t;
    subtype : string }.
End ScanResult.

(** [binascii.hexlify]: two lowercase hexadecimal digits per byte. *)
Definition hex_digit (n : N) : ascii :=
  match String.get (N.to_nat n) "0123456789abcdef" with
  | Some c => c
  | None => "0"%char
  end.

Fixpoint hexlify (data : bytes) : string :=
  match data with
  | [] => EmptyString
  | c :: rest =>
      String (hex_digit (N_of_ascii c / 16))
             (String (hex_digit (N_of_ascii c mod 16)) (hexlify rest))
  end.

(** [str.lower] on a byte string (the C locale: only A-Z change). *)
Definition lower_ascii (c : ascii) : ascii :=
  let n := N_of_ascii c in
  if ((65 <=? n) && (n <=? 90))%N then ascii_of_N (n + 32) else c.

Fixpoint lower (s : string) : string :=
  match s with
  | EmptyString => EmptyString
  | String c rest => String (lower_ascii c) (lower rest)
  end.

(** [x in l] for a list of strings. *)
Definition str_in (x : string) (l : list string) : bool :=
  existsb (String.eqb x) l.

(** ** Exceptions and the world outside the class *)

Inductive exn : Type :=
| IOError (errno : Z) (strerror : string) (filename : string)
| ProcessorException (message : string)
| YaraError (message : string).

Inductive result (T : Type) : Type :=
| Ok (v : T)
| Raise (e : exn).
Arguments Ok {T} v.
Arguments Raise {T} e.

Definition EACCES : Z := 13.
Definition ENOENT : Z := 2.

(** What [yara.compile] and [yara.load] can do: hand back rules, raise
    [yara.SyntaxError], or raise another [yara.Error]. *)
Inductive yara_outcome : Type :=
| Compiled (rules : Rules)
| SyntaxError (e : string)
| Error (e : string).

(** The file system and the yara library, as the constructor sees them. *)
Record World : Type :=
  { isfile : string -> bool;
    can_open : string -> bool;
    yara_compile : list (string * string) -> yara_outcome;
    yara_load : string -> yara_outcome }.

(** ** The Processor object *)

Inductive rule_files_t : Type :=
| Namespaces (d : list (string * string))
| CompiledFile (path : string).

Record Processor : Type := mkProcessor
  { _rule_files : rule_files_t;
    _rules : Rules;
    _allowed_modes : list string;
    _processing_mode : string;
    _buffer_size : Z;
    _window_step : Z;
    _raw_results : list YaraMatch.t;
    _formatted_results : list ScanResult.t;
    _current : bytes;
    _next : option bytes;
    _window_index : Z;
    _offset : Z;
    (** Not an attribute of the Python object: the buffers handed to
        [self._rules.match] so far, oldest first. *)
    match_log : list bytes }.

Definition with_results (p : Processor)
    (raw : list YaraMatch.t) (formatted : list ScanResult.t) : Processor :=
  mkProcessor (_rule_files p) (_rules p) (_allowed_modes p)
    (_processing_mode p) (_buffer_size p) (_window_step p)
    raw formatted
    (_current p) (_next p) (_window_index p) (_offset p) (match_log p).

Definition with_current (p : Processor) (value : bytes) : Processor :=
  mkProcessor (_rule_files p) (_rules p) (_allowed_modes p)
    (_processing_mode p) (_buffer_size p) (_window_step p)
    (_raw_results p) (_formatted_results p)
    value (_next p) (_window_index p) (_offset p) (match_log p).

Definition with_window_index (p : Processor) (i : Z) : Processor :=
  mkProcessor (_rule_files p) (_rules p) (_allowed_modes p)
    (_processing_mode p) (_buffer_size p) (_window_step p)
    (_raw_results p) (_formatted_results p)
    (_current p) (_next p) i (_offset p) (match_log p).

Definition with_offset (p : Processor) (o : Z) : Processor :=
  mkProcessor (_rule_files p) (_rules p) (_allowed_modes p)
    (_processing_mode p) (_buffer_size p) (_window_step p)
    (_raw_results p) (_formatted_results p)
    (_current p) (_next p) (_window_index p) o (match_log p).

Definition with_match_log (p : Processor) (log : list bytes) : Processor :=
  mkProcessor (_rule_files p) (_rules p) (_allowed_modes p)
    (_processing_mode p) (_buffer_size p) (_window_step p)
    (_raw_results p) (_formatted_results p)
    (_current p) (_next p) (_window_index p) (_offset p) log.

(** *** The constructor *)

(** The keyword arguments the constructor reads. *)
Record Kwargs : Type :=
  { buffer_size : option Z;
    window_step : option Z }.

Definition kwargs_get (v : option Z) (default : Z) : Z :=
  match v with Some x => x | None => default end.

(** The loop that checks that each rule file exists and can be read. *)
Fixpoint validate_rule_files (w : World) (rule_files : list string)
  : result unit :=
  match rule_files with
  | [] => Ok tt
  | f :: rest =>
      if isfile w f
      then if can_open w f
           then validate_rule_files w rest
           else Raise (IOError EACCES "Cannot open/read file." f)
      else Raise (IOError ENOENT "Cannot find file." f)
  end.

Definition decimal (i : nat) : string :=
  NilEmpty.string_of_uint (Nat.to_uint i).

Fixpoint prepare_rules_from (i : nat) (rules : list string)
  : list (string * string) :=
  match rules with
  | [] => []
  | fn :: rest => ("RuleFile" ++ decimal i, fn)%string
                    :: prepare_rules_from (S i) rest
  end.

(** [Processor._prepare_rules]: the dictionary, in insertion order. *)
Definition _prepare_rules (rules : list string) : list (string * string) :=
  prepare_rules_from 0 rules.

Definition dquote : string := String "034"%char EmptyString.

Definition syntax_error_message (e : string) : string :=
  ("Rule syntax error. If using compiled rules, you must pass the "
     ++ dquote ++ "compiled" ++ dquote ++ " argument. Original error: "
     ++ e)%string.

Definition compiled_count_message : string :=
  ("Compiled rules must be compiled to one file. Loading "
     ++ "from compiled rules does not support multiple rule files.")%string.

Definition load_error_message (e : string) : string :=
  ("Generic error loading compiled rules. Original error: " ++ e)%string.

Definition unsupported_mode_message (processing_mode : string) : string :=
  (processing_mode ++ " is not a supported processing mode.")%string.

(** The two branches on [compiled]: what ends up in [_rule_files] and
    [_rules]. *)
Definition load_rules (w : World) (rule_files : list string)
    (compiled : bool) : result (rule_files_t * Rules) :=
  if negb compiled then
    let d := _prepare_rules rule_files in
    match yara_compile w d with
    | Compiled r => Ok (Namespaces d, r)
    | SyntaxError e => Raise (ProcessorException (syntax_error_message e))
    | Error e => Raise (YaraError e)
    end
  else
    match rule_files with
    | [f] =>
        match yara_load w f with
        | Compiled r => Ok (CompiledFile f, r)
        | SyntaxError e | Error e =>
            Raise (ProcessorException (load_error_message e))
        end
    | _ => Raise (ProcessorException compiled_count_message)
    end.

Definition allowed_modes : list string :=
  ["raw"; "fixed_buffer"; "sliding_window"]%string.

(** [Processor.__init__].  The assignment [self.data = ''] in the middle
    of it runs the setter on an empty value, which stores it and does
    nothing else; the attributes are then given their initial values. *)
Definition __init__ (w : World) (rule_files : list string)
    (processing_mode : string) (compiled : bool) (kwargs : Kwargs)
  : result Processor :=
  match validate_rule_files w rule_files with
  | Raise e => Raise e
  | Ok _ =>
      match load_rules w rule_files compiled with
      | Raise e => Raise e
      | Ok (files, rules) =>
          if negb (str_in (lower processing_mode) allowed_modes)
          then Raise (ProcessorException
                        (unsupported_mode_message processing_mode))
          else
            let size := kwargs_get (buffer_size kwargs) 1024 in
            let step := kwargs_get (window_step kwargs) 1 in
            let step := if (processing_mode =? "fixed_buffer")%string
                        then size else step in
            Ok (mkProcessor files rules allowed_modes processing_mode
                  size step [] [] [] None 0 0 [])
      end
  end.

(** *** analyze, results, clear_results *)

Definition format_hit (base : Z) (s : Z * string * bytes) : Hit.t :=
  let '(local, identifier, matched) := s in
  Hit.mk (base + local) identifier (hexlify matched).

(** The dictionary built for one match [r], with the hits' offsets
    counted from [base]. *)
Definition format_match (base : Z) (r : YaraMatch.t) : ScanResult.t :=
  ScanResult.mk (YaraMatch.rule r)
                (map (format_hit base) (YaraMatch.strings r))
                "scan_result".

(** One turn of the loop over the matches in [analyze]. *)
Definition record_match (p : Processor) (r : YaraMatch.t) : Processor :=
  with_results p
    (_raw_results p ++ [r])
    (_formatted_results p ++ [format_match (_offset p) r]).

(** The [results] property. *)
Definition results (p : Processor) : list ScanResult.t :=
  _formatted_results p.

(** The buffer [analyze] scans: [data] unless it is false ([None] or
    empty), in which case the [data] property, i.e. [_current]. *)
Definition scanned (p : Processor) (data : option bytes) : bytes :=
  match data with
  | Some d => if truthy d then d else _current p
  | None => _current p
  end.

(** [Processor.analyze(data)]: the object afterwards and the value
    returned. *)
Definition analyze (p : Processor) (data : option bytes)
  : Processor * list ScanResult.t :=
  let data := scanned p data in
  let matches := _rules p data in
  let p := with_match_log p (match_log p ++ [data]) in
  let p := fold_left record_match matches p in
  let p := if (_processing_mode p =? "raw")%string
           then with_offset p (_offset p + len data)
           else p in
  (p, results p).

(** [Processor.clear_results]. *)
Definition clear_results (p : Processor) : Processor :=
  with_results p [] [].

(** *** The data property *)

(** The getter. *)
Definition data (p : Processor) : bytes := _current p.

(** The body of the [for chunk in ...] loop of the setter. *)
Definition dispatch_chunk (p : Processor) (chunk : bytes) : Processor :=
  let p := fst (analyze p (Some chunk)) in
  if (_processing_mode p =? "fixed_buffer")%string
  then with_offset p (_offset p + len chunk)
  else if (_processing_mode p =? "sliding_window")%string
       then with_offset p (_offset p + _window_step p)
       else p.

(** The setter, [p.data = value]; [None] when the loop over the windows
    never ends. *)
Definition set_data (p : Processor) (value : bytes) : option Processor :=
  let p := with_current p value in
  if negb (_processing_mode p =? "raw")%string then
    let pending := py_slice (_current p) (_window_index p) None in
    if truthy (_current p) && (_buffer_size p <=? len pending)
    then
      match _window pending (_buffer_size p) (_window_step p) with
      | None => None
      | Some chunks =>
          let p := fold_left dispatch_chunk chunks p in
          Some (with_window_index p (len (_current p)))
      end
    else Some p
  else Some p.

(** [p.data += more]: the getter, a concatenation, the setter. *)
Definition append (p : Processor) (more : bytes) : option Processor :=
  set_data p (data p ++ more).

(** ** A rule set and a world to run the scenarios in *)

Module Fixture.

Fixpoint starts_with (pattern buffer : bytes) : bool :=
  match pattern, buffer with
  | [], _ => true
  | _ :: _, [] => false
  | a :: pattern', b :: buffer' =>
      Ascii.eqb a b && starts_with pattern' buffer'
  end.

Fixpoint occurrences (pattern buffer : bytes) (at_ : Z) : list Z :=
  match buffer with
  | [] => []
  | _ :: rest =>
      (if starts_with pattern buffer then [at_] else [])
        ++ occurrences pattern rest (at_ + 1)
  end.

(** A rule set holding one rule with one text string: it fires when the
    text occurs in the buffer and reports every occurrence. *)
Definition literal_rule (name identifier : string) (pattern : bytes)
  : Rules :=
  fun buffer =>
    match occurrences pattern buffer 0 with
    | [] => []
    | hits =>
        [YaraMatch.mk name
           (map (fun o => (o, identifier, pattern)) hits)]
    end.

Definition bytes_of (s : string) : bytes := list_ascii_of_string s.

(** The rule the repository's tests rely on: the text "dirty". *)
Definition dirty : Rules :=
  literal_rule "dirty_rule" "$dirty" (bytes_of "dirty").

(** A rule set that fires on every buffer that is not empty and reports
    one hit: the whole buffer, at local offset 0. *)
Definition whole : Rules :=
  fun buffer =>
    if truthy buffer
    then [YaraMatch.mk "whole" [(0, "$all"%string, buffer)]]
    else [].

(** A world where every file exists and is readable and every rule file
    compiles (or loads) to [rules]. *)
Definition world (rules : Rules) : World :=
  {| isfile := fun _ => true;
     can_open := fun _ => true;
     yara_compile := fun _ => Compiled rules;
     yara_load := fun _ => Compiled rules |}.

Definition kwargs (size step : Z) : Kwargs :=
  {| buffer_size := Some size; window_step := Some step |}.

Definition no_kwargs : Kwargs :=
  {| buffer_size := None; window_step := None |}.

(** A Processor as the constructor leaves it, for the rule set [rules]
    compiled from no file. *)
Definition fresh (rules : Rules) (mode : string) (size step : Z)
  : Processor :=
  mkProcessor (Namespaces []) rules allowed_modes mode size step
              [] [] [] None 0 0 [].

End Fixture.

(** How far the loop body moves [_offset] itself, once [analyze] is
    back. *)
Definition chunk_advance (p : Processor) (chunk : bytes) : Z :=
  if (_processing_mode p =? "fixed_buffer")%string then len chunk
  else if (_processing_mode p =? "sliding_window")%string
       then _window_step p
       else 0.

(** How far one turn of the loop moves [_offset] in all: what [analyze]
    adds (in raw mode) and what the loop body adds after it. *)
Definition dispatch_advance (p : Processor) (chunk : bytes) : Z :=
  (if (_processing_mode p =? "raw")%string
   then len (scanned p (Some chunk)) else 0)
  + chunk_advance p chunk.

(** The records a run of the loop over [chunks] is expected to add when
    it starts at offset [base]: those of each chunk counted from the
    offset reached before that chunk's own advance. *)
Fixpoint chunk_records (p : Processor) (base : Z) (chunks : list bytes)
  : list ScanResult.t :=
  match chunks with
  | [] => []
  | c :: rest =>
      map (format_match base) (_rules p (scanned p (Some c)))
        ++ chunk_records p (base + dispatch_advance p c) rest
  end.

(** ** Sessions *)

(** The calls a client can make on a Processor. *)
Inductive call : Type :=
| SetData (value : bytes)
| Append (more : bytes)
| Analyze (data : option bytes)
| ClearResults.

Definition step_call (p : Processor) (c : call) : option Processor :=
  match c with
  | SetData value => set_data p value
  | Append more => append p more
  | Analyze data => Some (fst (analyze p data))
  | ClearResults => Some (clear_results p)
  end.

(** A session: the calls in order; [None] as soon as one never returns. *)
Fixpoint run (p : Processor) (calls : list call) : option Processor :=
  match calls with
  | [] => Some p
  | c :: rest =>
      match step_call p c with
      | Some p' => run p' rest
      | None => None
      end
  end.

(** The attributes no method assigns after construction. *)
Definition same_config (p q : Processor) : Prop :=
  _rule_files q = _rule_files p
  /\ _rules q = _rules p
  /\ _allowed_modes q = _allowed_modes p
  /\ _processing_mode q = _processing_mode p
  /\ _buffer_size q = _buffer_size p
  /\ _window_step q = _window_step p
  /\ _next q = _next p.

(** Total number of bytes in a list of buffers. *)
Definition total_len (buffers : list bytes) : Z :=
  fold_right (fun b acc => len b + acc) 0 buffers.

(** How many of the buffers handed to the matcher so far were exactly
    [_buffer_size] long. *)
Definition complete_dispatches (p : Processor) : Z :=
  len (filter (fun b => len b =? _buffer_size p) (match_log p)).

(** The global offsets of the hits of a formatted record. *)
Definition hit_offsets (r : ScanResult.t) : list Z :=
  map Hit.offset (ScanResult.strings r).

(** A session from the constructor on: [None] if the constructor raises
    or a call never returns. *)
Definition session (w : World) (rule_files : list string)
    (processing_mode : string) (compiled : bool) (kwargs : Kwargs)
    (calls : list call) : option Processor :=
  match __init__ w rule_files processing_mode compiled kwargs with
  | Ok p => run p calls
  | Raise _ => None
  end.

(** Every formatted record carries the offsets the matcher reported,
    untranslated. *)
Definition local_offsets (p : Processor) : Prop :=
  _formatted_results p = map (format_match 0) (_raw_results p).

(** A Processor in mode [mode] whose offset is still zero and whose
    records are untranslated. *)
Definition stuck (mode : string) (p : Processor) : Prop :=
  _processing_mode p = mode /\ _offset p = 0 /\ local_offsets p.

(** ** __str__ *)

(** What [str(p)] gives: a string, or the AttributeError of a failed
    attribute lookup. *)
Inductive str_outcome : Type :=
| Str (s : string)
| AttributeError (message : string).

(** [sep.join(parts)]. *)
Fixpoint join (sep : string) (parts : list string) : string :=
  match parts with
  | [] => EmptyString
  | [x] => x
  | x :: rest => (x ++ sep ++ join sep rest)%string
  end.

(** [Processor.__str__], with the module's [__name__] as an argument.
    [self._rule_files] is a dictionary after [_prepare_rules] and a path
    (a [str]) for compiled rules; both are false when empty, and a [str]
    has no [values] method.  The values of the dictionary are taken in
    insertion order. *)
Definition __str__ (__name__ : string) (p : Processor) : str_outcome :=
  let s := ("Processor " ++ __name__)%string in
  match _rule_files p with
  | Namespaces [] => Str s
  | Namespaces d =>
      Str (s ++ " running with rules " ++ join " " (map snd d))%string
  | CompiledFile EmptyString => Str s
  | CompiledFile _ =>
      AttributeError "'str' object has no attribute 'values'"
  end.

(** ** The command line *)

(** The values argparse lets through for [--mode]. *)
Inductive cli_mode : Type :=
| ModeRaw
| ModeFixedBuffer
| ModeSlidingWindow.

Definition mode_name (m : cli_mode) : string :=
  match m with
  | ModeRaw => "raw"
  | ModeFixedBuffer => "fixed_buffer"
  | ModeSlidingWindow => "sliding_window"
  end.

(** The parsed arguments; [args_input] is what [args.input.read()]
    returned. *)
Record Args : Type :=
  { args_mode : cli_mode;
    args_input : bytes;
    args_rules : list string;
    args_compiled : bool;
    args_size : Z;
    args_step : Z }.

(** How the script ends: with the Processor [p] whose [results] it logs,
    with an exception, or not at all. *)
Inductive outcome : Type :=
| Returned (p : Processor)
| Raised (e : exn)
| Hangs.

(** The body of [if __name__ == '__main__'], from the parsed arguments
    on (the logging calls left out). *)
Definition main (w : World) (args : Args) : outcome :=
  if negb (mode_name (args_mode args) =? "raw")%string then
    match __init__ w (args_rules args) (mode_name (args_mode args))
                   (args_compiled args)
                   {| buffer_size := Some (args_size args);
                      window_step := Some (args_step args) |} with
    | Raise e => Raised e
    | Ok p =>
        match append p (args_input args) with
        | Some p => Returned p
        | None => Hangs
        end
    end
  else
    match __init__ w (args_rules args) "raw" (args_compiled args)
                   {| buffer_size := None; window_step := None |} with
    | Raise e => Raised e
    | Ok p =>
        match append p (args_input args) with
        | Some p => Returned (fst (analyze p None))
        | None => Hangs
        end
    end.

(** ** Notions used in the further properties *)

(** The records of a list of buffers scanned one after the other, each
    counted from the number of bytes in the buffers before it. *)
Fixpoint positional_records (rules : Rules) (base : Z)
    (buffers : list bytes) : list ScanResult.t :=
  match buffers with
  | [] => []
  | b :: rest =>
      map (format_match base) (rules b)
        ++ positional_records rules (base + len b) rest
  end.

Definition is_analyze (c : call) : bool :=
  match c with Analyze _ => true | _ => false end.

Definition is_clear (c : call) : bool :=
  match c with ClearResults => true | _ => false end.

(** A formatted record that mirrors a raw match: same rule, one hit per
    string with the same identifier and the matched bytes in hexadecimal,
    and the scan_result tag. *)
Definition mirrors (r : YaraMatch.t) (f : ScanResult.t) : Prop :=
  ScanResult.result f = YaraMatch.rule r
  /\ ScanResult.subtype f = "scan_result"%string
  /\ map Hit.rule_id (ScanResult.strings f)
     = map (fun s => snd (fst s)) (YaraMatch.strings r)
  /\ map Hit.string (ScanResult.strings f)
     = map (fun s => hexlify (snd s)) (YaraMatch.strings r).

(** [ceil(a / b)] for a positive [b]. *)
Definition ceil_div (a b : Z) : Z := (a + b - 1) / b.

(** What holds of a fixed_buffer Processor that has only been appended
    to: the matcher has been given, piece by piece and in order, the
    buffer up to the window index; the offset is that index; each record
    is counted from the place of its piece; and fewer than [_buffer_size]
    bytes wait. *)
Definition fixed_stream (p : Processor) : Prop :=
  _processing_mode p = "fixed_buffer"%string
  /\ _window_step p = _buffer_size p
  /\ 1 <= _buffer_size p
  /\ 0 <= _window_index p <= len (_current p)
  /\ concat (match_log p)
     = firstn (Z.to_nat (_window_index p)) (_current p)
  /\ _offset p = _window_index p
  /\ _formatted_results p
     = positional_records (_rules p) 0 (match_log p)
  /\ len (_current p) - _window_index p < _buffer_size p.

(** * Properties *)

(** ** Slices *)

Section SliceFacts.
Context {A : Type}.
Implicit Types (l : list A) (i j n : Z).

Lemma len_nonneg l : 0 <= len l.
Proof. unfold len. lia. Qed.

Lemma len_nil_iff l : len l = 0 <-> l = [].
Proof.
  unfold len. destruct l; simpl; split; intros H; try reflexivity;
    try discriminate; lia.
Qed.

Lemma len_app l1 l2 : len (l1 ++ l2) = len l1 + len l2.
Proof. unfold len. rewrite length_app. lia. Qed.

Lemma truthy_false_iff l : truthy l = false <-> l = [].
Proof. destruct l; simpl; split; congruence. Qed.

Lemma truthy_true_iff l : truthy l = true <-> l <> [].
Proof. destruct l; simpl; split; congruence. Qed.

Lemma slice_bound_range n k : 0 <= n -> 0 <= slice_bound n k <= n.
Proof. unfold slice_bound. destruct (Z.ltb_spec k 0); lia. Qed.

Lemma slice_bound_nonneg n k :
  0 <= k -> slice_bound n k = Z.min k n.
Proof. unfold slice_bound. destruct (Z.ltb_spec k 0); lia. Qed.

(** The length of a closed slice, from its normalised bounds. *)
Lemma py_slice_len l i j :
  len (py_slice l i (Some j))
  = Z.max 0 (slice_bound (len l) j - slice_bound (len l) i).
Proof.
  unfold py_slice.
  pose proof (slice_bound_range (len l) i (len_nonneg l)) as Hi.
  pose proof (slice_bound_range (len l) j (len_nonneg l)) as Hj.
  unfold len in *. rewrite length_firstn, length_skipn. lia.
Qed.

Lemma py_slice_nil_iff l i j :
  py_slice l i (Some j) = []
  <-> slice_bound (len l) j <= slice_bound (len l) i.
Proof.
  rewrite <- len_nil_iff, py_slice_len. lia.
Qed.

(** A window that starts at a non-negative index and has a non-negative
    width is a [firstn] of a [skipn]. *)
Lemma py_slice_window l i n :
  0 <= i -> 0 <= n ->
  py_slice l i (Some (i + n))
  = firstn (Z.to_nat n) (skipn (Z.to_nat i) l).
Proof.
  intros Hi Hn. unfold py_slice.
  rewrite !slice_bound_nonneg by lia.
  destruct (Z.le_gt_cases (len l) i) as [Hge | Hlt].
  - rewrite (Z.min_r i), (Z.min_r (i + n)) by lia.
    rewrite Z.sub_diag. simpl.
    rewrite (skipn_all2 (n := Z.to_nat i)) by (unfold len in Hge; lia).
    now rewrite firstn_nil.
  - rewrite (Z.min_l i) by lia.
    destruct (Z.le_gt_cases (i + n) (len l)) as [Hfit | Hover].
    + rewrite (Z.min_l (i + n)) by lia. f_equal. lia.
    + rewrite (Z.min_r (i + n)) by lia.
      rewrite !firstn_all2; try reflexivity;
        rewrite length_skipn; unfold len in *; lia.
Qed.

(** The open slice from a non-negative index. *)
Lemma py_slice_from l i :
  0 <= i -> py_slice l i None = skipn (Z.to_nat i) l.
Proof.
  intros Hi. unfold py_slice. rewrite slice_bound_nonneg by lia.
  destruct (Z.le_gt_cases (len l) i) as [Hge | Hlt].
  - rewrite Z.min_r by lia. rewrite Z.sub_diag. simpl.
    symmetry. apply skipn_all2. unfold len in Hge. lia.
  - rewrite Z.min_l by lia. apply firstn_all2.
    rewrite length_skipn. unfold len in *. lia.
Qed.

Lemma py_slice_from_len l i :
  0 <= i -> len (py_slice l i None) = Z.max 0 (len l - i).
Proof.
  intros Hi. rewrite py_slice_from by assumption.
  unfold len. rewrite length_skipn. lia.
Qed.

(** With positive width and non-negative start, a window is empty
    exactly when it starts at or past the end. *)
Lemma window_empty_iff l i size :
  0 <= i -> 1 <= size ->
  py_slice l i (Some (i + size)) = [] <-> len l <= i.
Proof.
  intros Hi Hs. rewrite py_slice_nil_iff.
  rewrite !slice_bound_nonneg by lia. pose proof (len_nonneg l). lia.
Qed.

Lemma window_len l i size :
  0 <= i -> 0 <= size ->
  len (py_slice l i (Some (i + size))) = Z.max 0 (Z.min size (len l - i)).
Proof.
  intros Hi Hs. rewrite py_slice_len.
  rewrite !slice_bound_nonneg by lia. pose proof (len_nonneg l). lia.
Qed.

End SliceFacts.

(** ** The windowing generator *)

(** The least index at which a decidable property holds, below a known
    one. *)
Lemma least_true (P : nat -> bool) (bound : nat) :
  P bound = true ->
  exists n, (n <= bound)%nat /\ P n = true
            /\ forall k, (k < n)%nat -> P k = false.
Proof.
  revert P. induction bound as [| b IH]; intros P Hb.
  - exists 0%nat. split; [lia |]. split; [assumption |]. intros k Hk. lia.
  - destruct (P 0%nat) eqn:H0.
    + exists 0%nat. split; [lia |]. split; [assumption |].
      intros k Hk. lia.
    + destruct (IH (fun k => P (S k)) Hb) as (n & Hn & Pn & Hlt).
      exists (S n). split; [lia |]. split; [assumption |].
      intros [| k] Hk; [assumption | apply Hlt; lia].
Qed.

Section WindowFacts.
Context {A : Type}.
Implicit Types (sequence : list A) (size step i : Z).

Lemma window_slice_from_0 sequence size step k :
  window_slice_from sequence size step 0 k
  = window_slice sequence size step k.
Proof. reflexivity. Qed.

Lemma window_slice_from_shift sequence size step i k :
  window_slice_from sequence size step (i + step) k
  = window_slice_from sequence size step i (S k).
Proof.
  unfold window_slice_from.
  replace (i + step + Z.of_nat k * step)
    with (i + Z.of_nat (S k) * step) by lia.
  reflexivity.
Qed.

Lemma window_slice_from_here sequence size step i :
  window_slice_from sequence size step i 0
  = py_slice sequence i (Some (i + size)).
Proof.
  unfold window_slice_from. simpl. now rewrite Z.add_0_r.
Qed.

(** The loop yields the slices up to the first empty one, provided it
    has the fuel to reach it. *)
Lemma window_loop_stops sequence size step (n : nat) :
  forall (fuel : nat) i,
    (n < fuel)%nat ->
    (forall k, (k < n)%nat ->
               window_slice_from sequence size step i k <> []) ->
    window_slice_from sequence size step i n = [] ->
    window_loop fuel sequence size step i
    = Some (map (window_slice_from sequence size step i) (seq 0 n)).
Proof.
  induction n as [| n IH]; intros fuel i Hfuel Hbefore Hstop;
    (destruct fuel as [| fuel]; [lia |]); simpl window_loop.
  - rewrite (window_slice_from_here sequence size step i) in Hstop.
    now rewrite Hstop.
  - assert (H0 : py_slice sequence i (Some (i + size)) <> []).
    { rewrite <- (window_slice_from_here sequence size step i).
      apply Hbefore. lia. }
    apply truthy_true_iff in H0. rewrite H0.
    rewrite (IH fuel (i + step)).
    + simpl. rewrite (window_slice_from_here sequence size step i).
      do 2 f_equal.
      rewrite <- seq_shift, map_map.
      apply map_ext. intros k. apply window_slice_from_shift.
    + lia.
    + intros k Hk. rewrite window_slice_from_shift. apply Hbefore. lia.
    + now rewrite window_slice_from_shift.
Qed.

(** More fuel does not change what a finished loop returned. *)
Lemma window_loop_fuel_mono sequence size step :
  forall (fuel fuel' : nat) i chunks,
    (fuel <= fuel')%nat ->
    window_loop fuel sequence size step i = Some chunks ->
    window_loop fuel' sequence size step i = Some chunks.
Proof.
  induction fuel as [| fuel IH]; intros fuel' i chunks Hle H;
    [discriminate |].
  destruct fuel' as [| fuel']; [lia |]. simpl in *.
  destruct (truthy (py_slice sequence i (Some (i + size)))); auto.
  destruct (window_loop fuel sequence size step (i + step)) as [rest |]
    eqn:Hrest; [| discriminate].
  rewrite (IH fuel' (i + step) rest); auto. lia.
Qed.

(** With a zero step and a first slice that is not empty the loop yields
    that slice for ever. *)
Lemma window_loop_step_0 sequence size i :
  py_slice sequence i (Some (i + size)) <> [] ->
  forall fuel : nat, window_loop fuel sequence size 0 i = None.
Proof.
  intros Hne fuel. induction fuel as [| fuel IH]; [reflexivity |].
  simpl. apply truthy_true_iff in Hne. rewrite Hne.
  rewrite Z.add_0_r, IH. reflexivity.
Qed.

(** Whenever some slice is empty the loop returns the slices before the
    first empty one. *)
Lemma window_loop_returns sequence size step (fuel k : nat) :
  (k < fuel)%nat ->
  window_slice sequence size step k = [] ->
  exists n : nat,
    (n <= k)%nat
    /\ window_loop fuel sequence size step 0
       = Some (map (window_slice sequence size step) (seq 0 n))
    /\ window_slice sequence size step n = []
    /\ forall j, (j < n)%nat -> window_slice sequence size step j <> [].
Proof.
  intros Hfuel Hk.
  destruct (least_true
              (fun j => negb (truthy (window_slice sequence size step j)))
              k) as (n & Hn & Hstop & Hbefore).
  { now rewrite (proj2 (truthy_false_iff _) Hk). }
  apply negb_true_iff, truthy_false_iff in Hstop.
  assert (Hb : forall j, (j < n)%nat ->
                         window_slice sequence size step j <> []).
  { intros j Hj. apply truthy_true_iff.
    specialize (Hbefore j Hj). now apply negb_false_iff in Hbefore. }
  exists n. repeat split; auto.
  rewrite (window_loop_stops sequence size step n fuel 0); auto. lia.
Qed.

(** Past the end every slice is empty, whatever the width. *)
Lemma py_slice_past_end sequence i j :
  len sequence <= i -> py_slice sequence i (Some j) = [].
Proof.
  intros Hi. apply py_slice_nil_iff.
  pose proof (len_nonneg sequence).
  rewrite (slice_bound_nonneg _ i) by lia.
  pose proof (slice_bound_range (len sequence) j). lia.
Qed.

(** Far enough before the start every slice is empty too. *)
Lemma py_slice_before_start sequence i j :
  i + len sequence <= 0 -> j + len sequence <= 0 -> i < 0 -> j < 0 ->
  py_slice sequence i (Some j) = [].
Proof.
  intros Hi Hj Hi0 Hj0. apply py_slice_nil_iff. unfold slice_bound.
  destruct (Z.ltb_spec i 0), (Z.ltb_spec j 0); lia.
Qed.

(** The generator runs for ever in exactly one situation: a step of
    zero and a first slice that is not empty. *)
Lemma window_diverges_iff sequence size step :
  _window sequence size step = None
  <-> step = 0 /\ py_slice sequence 0 (Some size) <> [].
Proof.
  unfold _window. split.
  - intros Hnone.
    assert (Hsome : forall k,
               (k < window_fuel sequence size)%nat ->
               window_slice sequence size step k = [] -> False).
    { intros k Hk Hempty.
      destruct (window_loop_returns sequence size step _ k Hk Hempty)
        as (n & _ & Hret & _).
      congruence. }
    destruct (Z.lt_trichotomy step 0) as [Hneg | [Hzero | Hpos]].
    + exfalso.
      apply (Hsome (S (length sequence + Z.abs_nat size)));
        [unfold window_fuel; lia |].
      unfold window_slice. apply py_slice_before_start;
        unfold len; nia.
    + split; [assumption |]. intros Hempty.
      apply (Hsome 0%nat); [unfold window_fuel; lia |].
      exact Hempty.
    + exfalso.
      apply (Hsome (length sequence)); [unfold window_fuel; lia |].
      unfold window_slice. apply py_slice_past_end. unfold len. nia.
  - intros [-> Hne]. now apply window_loop_step_0.
Qed.

(** For a positive size and a positive step the generator stops, after
    yielding the slices
    [sequence[k*step : k*step + size]] for [k] below the first index
    whose slice starts at or past the end. *)
Lemma window_spec sequence size step :
  1 <= size -> 1 <= step ->
  exists n : nat,
    _window sequence size step
    = Some (map (window_slice sequence size step) (seq 0 n))
    /\ (forall k, (k < n)%nat -> Z.of_nat k * step < len sequence)
    /\ len sequence <= Z.of_nat n * step.
Proof.
  intros Hsize Hstep.
  destruct (window_loop_returns sequence size step
              (window_fuel sequence size) (length sequence))
    as (n & Hn & Hret & Hstop & Hbefore).
  { unfold window_fuel. lia. }
  { unfold window_slice. apply py_slice_past_end. unfold len. nia. }
  exists n. split; [exact Hret |]. split.
  - intros k Hk. specialize (Hbefore k Hk). unfold window_slice in Hbefore.
    rewrite window_empty_iff in Hbefore by nia. lia.
  - unfold window_slice in Hstop.
    rewrite window_empty_iff in Hstop by nia. exact Hstop.
Qed.

(** The length of the [k]-th slice: [size], cut short by the end of the
    sequence. *)
Lemma window_slice_len sequence size step (k : nat) :
  1 <= size -> 1 <= step ->
  len (window_slice sequence size step k)
  = Z.max 0 (Z.min size (len sequence - Z.of_nat k * step)).
Proof.
  intros Hsize Hstep. unfold window_slice. apply window_len; nia.
Qed.

End WindowFacts.

(** ** analyze *)

Lemma str_in_In (x : string) (l : list string) :
  str_in x l = true <-> In x l.
Proof.
  unfold str_in. rewrite existsb_exists. split.
  - intros (y & Hy & Heq). apply String.eqb_eq in Heq. now subst.
  - intros H. exists x. split; [assumption | apply String.eqb_refl].
Qed.

(** The loop over the matches appends them, and their formatted records,
    all counted from the one offset the object had when the loop began. *)
Lemma fold_record_match (matches : list YaraMatch.t) :
  forall p : Processor,
    fold_left record_match matches p
    = with_results p
        (_raw_results p ++ matches)
        (_formatted_results p ++ map (format_match (_offset p)) matches).
Proof.
  induction matches as [| r matches IH]; intros p; simpl.
  - rewrite !app_nil_r. now destruct p.
  - rewrite IH. unfold record_match. simpl.
    rewrite <- !app_assoc. reflexivity.
Qed.

(** What [analyze] leaves behind, attribute by attribute. *)
Lemma analyze_fields (p : Processor) (data : option bytes) :
  let q := fst (analyze p data) in
  same_config p q
  /\ _raw_results q = _raw_results p ++ _rules p (scanned p data)
  /\ _formatted_results q
     = _formatted_results p
         ++ map (format_match (_offset p)) (_rules p (scanned p data))
  /\ _current q = _current p
  /\ _window_index q = _window_index p
  /\ _offset q
     = (if (_processing_mode p =? "raw")%string
        then _offset p + len (scanned p data) else _offset p)
  /\ match_log q = match_log p ++ [scanned p data].
Proof.
  unfold analyze, same_config. rewrite fold_record_match. simpl.
  destruct (_processing_mode p =? "raw")%string; simpl; repeat split.
Qed.

(** The value [analyze] returns is the [results] property of the object
    it leaves behind: the records accumulated before the call, then the
    records of this call. *)
Lemma analyze_returns (p : Processor) (data : option bytes) :
  snd (analyze p data)
  = _formatted_results p
      ++ map (format_match (_offset p)) (_rules p (scanned p data)).
Proof.
  unfold analyze. rewrite fold_record_match. simpl.
  destruct (_processing_mode p =? "raw")%string; reflexivity.
Qed.

Lemma same_config_refl p : same_config p p.
Proof. unfold same_config. repeat split. Qed.

Lemma same_config_trans p q r :
  same_config p q -> same_config q r -> same_config p r.
Proof.
  unfold same_config.
  intros (?&?&?&?&?&?&?) (?&?&?&?&?&?&?). repeat split; congruence.
Qed.

(** ** The chunking loop of the setter *)

Lemma fold_left_preserves {S C : Type} (f : S -> C -> S) (I : S -> Prop) :
  (forall s c, I s -> I (f s c)) ->
  forall (l : list C) (s : S), I s -> I (fold_left f l s).
Proof.
  intros Hstep l. induction l as [| c l IH]; intros s Hs; simpl; auto.
Qed.

Lemma dispatch_chunk_fields (p : Processor) (chunk : bytes) :
  let q := dispatch_chunk p chunk in
  same_config p q
  /\ _raw_results q = _raw_results p ++ _rules p (scanned p (Some chunk))
  /\ _formatted_results q
     = _formatted_results p
         ++ map (format_match (_offset p))
                (_rules p (scanned p (Some chunk)))
  /\ _current q = _current p
  /\ _window_index q = _window_index p
  /\ _offset q
     = _offset (fst (analyze p (Some chunk))) + chunk_advance p chunk
  /\ match_log q = match_log p ++ [scanned p (Some chunk)].
Proof.
  destruct (analyze_fields p (Some chunk))
    as (Hcfg & Hraw & Hfmt & Hcur & Hidx & Hoff & Hlog).
  pose proof Hcfg as (_ & _ & _ & Hmode & _ & Hstep & _).
  unfold dispatch_chunk, chunk_advance. rewrite Hmode, Hstep.
  destruct (_processing_mode p =? "fixed_buffer")%string;
    [| destruct (_processing_mode p =? "sliding_window")%string];
    simpl; rewrite ?Z.add_0_r; repeat split; try assumption;
    apply Hcfg.
Qed.

(** Across the whole loop: the configuration, the buffer and the window
    index stay put, and the matcher sees one buffer per chunk. *)
Lemma fold_dispatch_frame (chunks : list bytes) :
  forall p : Processor,
    let q := fold_left dispatch_chunk chunks p in
    same_config p q
    /\ _current q = _current p
    /\ _window_index q = _window_index p
    /\ match_log q
       = match_log p ++ map (fun c => scanned p (Some c)) chunks.
Proof.
  induction chunks as [| c chunks IH]; intros p; simpl.
  - rewrite app_nil_r. split; [apply same_config_refl | auto].
  - destruct (dispatch_chunk_fields p c)
      as (Hcfg & _ & _ & Hcur & Hidx & _ & Hlog).
    destruct (IH (dispatch_chunk p c)) as (Hcfg' & Hcur' & Hidx' & Hlog').
    split; [| split; [| split]].
    + eapply same_config_trans; eassumption.
    + congruence.
    + congruence.
    + rewrite Hlog', Hlog, <- app_assoc. simpl. do 2 f_equal.
      apply map_ext. intros c'. unfold scanned. now rewrite Hcur.
Qed.

Lemma scanned_nonempty (p : Processor) (chunk : bytes) :
  chunk <> [] -> scanned p (Some chunk) = chunk.
Proof.
  intros H. unfold scanned. apply truthy_true_iff in H. now rewrite H.
Qed.

Lemma map_scanned_nonempty (p : Processor) (chunks : list bytes) :
  (forall c, In c chunks -> c <> []) ->
  map (fun c => scanned p (Some c)) chunks = chunks.
Proof.
  intros Hne. induction chunks as [| c chunks IH]; cbn [map];
    [reflexivity |].
  rewrite scanned_nonempty by (apply Hne; now left).
  f_equal. apply IH. intros c' Hc'. apply Hne. now right.
Qed.

(** The generator never yields an empty chunk. *)
Lemma window_loop_nonempty {A : Type} (sequence : list A) size step :
  forall (fuel : nat) i chunks,
    window_loop fuel sequence size step i = Some chunks ->
    forall c, In c chunks -> c <> [].
Proof.
  induction fuel as [| fuel IH]; intros i chunks H c Hc; [discriminate |].
  simpl in H.
  destruct (truthy (py_slice sequence i (Some (i + size)))) eqn:Hhead.
  - destruct (window_loop fuel sequence size step (i + step)) as [rest |]
      eqn:Hrest; [| discriminate].
    injection H as <-. destruct Hc as [<- | Hc].
    + now apply truthy_true_iff.
    + eapply IH; eassumption.
  - injection H as <-. destruct Hc.
Qed.

(** The setter, branch by branch. *)
Lemma set_data_unfold (p : Processor) (value : bytes) :
  set_data p value
  = if (_processing_mode p =? "raw")%string
    then Some (with_current p value)
    else
      let pending := py_slice value (_window_index p) None in
      if truthy value && (_buffer_size p <=? len pending)
      then
        match _window pending (_buffer_size p) (_window_step p) with
        | None => None
        | Some chunks =>
            Some (with_window_index
                    (fold_left dispatch_chunk chunks (with_current p value))
                    (len value))
        end
      else Some (with_current p value).
Proof.
  unfold set_data. simpl.
  destruct (_processing_mode p =? "raw")%string; simpl; [reflexivity |].
  destruct (truthy value && _); [| reflexivity].
  destruct (_window _ _ _) as [chunks |]; [| reflexivity].
  destruct (fold_dispatch_frame chunks (with_current p value))
    as (_ & Hcur & _).
  simpl in Hcur. now rewrite Hcur.
Qed.

(** The setter returns whenever the step is not zero. *)
Lemma set_data_total (p : Processor) (value : bytes) :
  _window_step p <> 0 -> exists q, set_data p value = Some q.
Proof.
  intros Hstep. rewrite set_data_unfold.
  destruct (_processing_mode p =? "raw")%string; [eauto |]. simpl.
  destruct (truthy value && _); [| eauto].
  destruct (_window _ _ _) as [chunks |] eqn:Hw; [eauto |].
  apply window_diverges_iff in Hw. tauto.
Qed.

(** What the setter leaves behind when it returns: the configuration is
    untouched, the buffer is the value assigned, and the matcher saw a
    (possibly empty) list of non-empty chunks. *)
Lemma set_data_frame (p q : Processor) (value : bytes) :
  set_data p value = Some q ->
  same_config p q
  /\ _current q = value
  /\ exists chunks,
       (forall c, In c chunks -> c <> [])
       /\ match_log q = match_log p ++ chunks.
Proof.
  rewrite set_data_unfold.
  assert (Hidle : same_config p (with_current p value)
                  /\ _current (with_current p value) = value
                  /\ exists chunks,
                       (forall c, In c chunks -> c <> [])
                       /\ match_log (with_current p value)
                          = match_log p ++ chunks).
  { repeat split. exists []. simpl. rewrite app_nil_r. split; tauto. }
  destruct (_processing_mode p =? "raw")%string;
    [intros [= <-]; exact Hidle |]. simpl.
  destruct (truthy value && _); [| intros [= <-]; exact Hidle].
  destruct (_window _ _ _) as [chunks |] eqn:Hw; [| discriminate].
  intros [= <-].
  destruct (fold_dispatch_frame chunks (with_current p value))
    as (Hcfg & Hcur & _ & Hlog).
  assert (Hne : forall c, In c chunks -> c <> []).
  { eapply window_loop_nonempty. exact Hw. }
  split; [exact Hcfg |]. split; [exact Hcur |].
  exists chunks. split; [exact Hne |].
  cbn [match_log with_window_index]. rewrite Hlog.
  now rewrite map_scanned_nonempty by exact Hne.
Qed.

(** With a positive size and step, an assignment that brings at least
    [_buffer_size] pending bytes hands the matcher every window of the
    pending bytes that is not empty, the short ones at the end included,
    and then moves the window index to the end of the buffer. *)
Lemma set_data_dispatches_windows (p : Processor) (value : bytes) :
  (_processing_mode p =? "raw")%string = false ->
  value <> [] ->
  1 <= _buffer_size p <= len (py_slice value (_window_index p) None) ->
  1 <= _window_step p ->
  exists (n : nat) (q : Processor),
    set_data p value = Some q
    /\ match_log q
       = match_log p
           ++ map (window_slice (py_slice value (_window_index p) None)
                                (_buffer_size p) (_window_step p))
                  (seq 0 n)
    /\ _window_index q = len value
    /\ (forall k : nat,
           (k < n)%nat ->
           Z.of_nat k * _window_step p
           < len (py_slice value (_window_index p) None))
    /\ len (py_slice value (_window_index p) None)
       <= Z.of_nat n * _window_step p.
Proof.
  intros Hraw Hne [Hsize Hfull] Hstep.
  destruct (window_spec (py_slice value (_window_index p) None)
              (_buffer_size p) (_window_step p) Hsize Hstep)
    as (n & Hret & Hbefore & Hstop).
  rewrite set_data_unfold, Hraw. cbv zeta.
  apply truthy_true_iff in Hne. rewrite Hne.
  apply Z.leb_le in Hfull. rewrite Hfull. cbn [andb]. rewrite Hret.
  exists n. eexists. split; [reflexivity |].
  destruct (fold_dispatch_frame
              (map (window_slice (py_slice value (_window_index p) None)
                                 (_buffer_size p) (_window_step p))
                   (seq 0 n))
              (with_current p value)) as (_ & _ & _ & Hlog).
  cbn [match_log _window_index with_window_index].
  split; [| split; [reflexivity | split; assumption]].
  rewrite Hlog.
  rewrite map_scanned_nonempty
    by (eapply window_loop_nonempty; exact Hret).
  reflexivity.
Qed.

Lemma chunk_records_ext (p q : Processor) (chunks : list bytes) :
  same_config p q -> _current q = _current p ->
  forall base, chunk_records q base chunks = chunk_records p base chunks.
Proof.
  intros (_ & Hrules & _ & Hmode & _ & Hstep & _) Hcur.
  induction chunks as [| c chunks IH]; intros base; simpl; [reflexivity |].
  unfold dispatch_advance, chunk_advance, scanned.
  rewrite Hrules, Hmode, Hstep, Hcur, IH. reflexivity.
Qed.

(** The loop as a whole: each chunk's records are counted from the offset
    reached before that chunk's advance. *)
Lemma fold_dispatch_results (chunks : list bytes) :
  forall p : Processor,
    _formatted_results (fold_left dispatch_chunk chunks p)
    = _formatted_results p ++ chunk_records p (_offset p) chunks.
Proof.
  induction chunks as [| c chunks IH]; intros p; simpl.
  - now rewrite app_nil_r.
  - destruct (dispatch_chunk_fields p c)
      as (Hcfg & _ & Hfmt & Hcur & _ & Hoff & _).
    destruct (analyze_fields p (Some c))
      as (_ & _ & _ & _ & _ & Hoff' & _).
    rewrite IH, Hfmt, (chunk_records_ext p _ chunks Hcfg Hcur).
    rewrite <- app_assoc. do 3 f_equal.
    rewrite Hoff, Hoff'. unfold dispatch_advance.
    destruct (_processing_mode p =? "raw")%string; lia.
Qed.

(** In fixed_buffer mode the loop moves [_offset] by the number of bytes
    it hands to the matcher. *)
Lemma fold_dispatch_offset_fixed (chunks : list bytes) :
  forall p : Processor,
    _processing_mode p = "fixed_buffer"%string ->
    _offset (fold_left dispatch_chunk chunks p)
    = _offset p + total_len chunks.
Proof.
  induction chunks as [| c chunks IH]; intros p Hmode; simpl; [lia |].
  destruct (dispatch_chunk_fields p c)
    as (Hcfg & _ & _ & _ & _ & Hoff & _).
  destruct (analyze_fields p (Some c)) as (_ & _ & _ & _ & _ & Hoff' & _).
  rewrite IH by (destruct Hcfg as (_ & _ & _ & -> & _); exact Hmode).
  rewrite Hoff, Hoff'. unfold chunk_advance. rewrite Hmode. simpl. lia.
Qed.

(** Hence, in fixed_buffer mode, an assignment to [data] moves [_offset]
    by exactly the bytes of the chunks the matcher was given, short ones
    included. *)
Lemma set_data_fixed_buffer_offset (p q : Processor) (value : bytes) :
  _processing_mode p = "fixed_buffer"%string ->
  set_data p value = Some q ->
  exists chunks,
    match_log q = match_log p ++ chunks
    /\ _offset q = _offset p + total_len chunks.
Proof.
  intros Hmode. rewrite set_data_unfold, Hmode. simpl.
  destruct (truthy value && _).
  - destruct (_window _ _ _) as [chunks |] eqn:Hw; [| discriminate].
    intros [= <-]. exists chunks.
    destruct (fold_dispatch_frame chunks (with_current p value))
      as (_ & _ & _ & Hlog).
    cbn [match_log _offset with_window_index]. split.
    + rewrite Hlog.
      rewrite map_scanned_nonempty
        by (eapply window_loop_nonempty; exact Hw).
      reflexivity.
    + now rewrite fold_dispatch_offset_fixed.
  - intros [= <-]. exists []. simpl. rewrite app_nil_r. split; [easy | lia].
Qed.

(** ** Sessions *)

(** A property kept by every primitive step is kept by every session. *)
Lemma run_preserves (I : Processor -> Prop) :
  (forall p d, I p -> I (fst (analyze p d))) ->
  (forall p c, I p -> I (dispatch_chunk p c)) ->
  (forall p v, I p -> I (with_current p v)) ->
  (forall p i, I p -> I (with_window_index p i)) ->
  (forall p, I p -> I (clear_results p)) ->
  forall calls p q, I p -> run p calls = Some q -> I q.
Proof.
  intros Han Hdc Hcur Hidx Hclr.
  assert (Hset : forall p v q, I p -> set_data p v = Some q -> I q).
  { intros p v q Hp. rewrite set_data_unfold.
    destruct (_processing_mode p =? "raw")%string;
      [intros [= <-]; auto |]. simpl.
    destruct (truthy v && _); [| intros [= <-]; auto].
    destruct (_window _ _ _) as [chunks |]; [| discriminate].
    intros [= <-]. apply Hidx.
    apply fold_left_preserves; auto. }
  induction calls as [| c calls IH]; intros p q Hp; simpl.
  - intros [= <-]. exact Hp.
  - destruct (step_call p c) as [p' |] eqn:Hc; [| discriminate].
    apply IH. destruct c; cbn [step_call] in Hc.
    + exact (Hset _ _ _ Hp Hc).
    + exact (Hset _ _ _ Hp Hc).
    + injection Hc as <-. apply Han, Hp.
    + injection Hc as <-. apply Hclr, Hp.
Qed.

(** A session returns as long as the window step is not zero. *)
Lemma run_total (calls : list call) :
  forall p, _window_step p <> 0 -> exists q, run p calls = Some q.
Proof.
  induction calls as [| c calls IH]; intros p Hstep; simpl; [eauto |].
  assert (Hc : exists p', step_call p c = Some p'
                          /\ _window_step p' = _window_step p).
  { destruct c; cbn [step_call]; unfold append.
    - destruct (set_data_total p value Hstep) as (p' & Hp').
      exists p'. split; [assumption |].
      apply set_data_frame in Hp'. apply Hp'.
    - destruct (set_data_total p (data p ++ more) Hstep) as (p' & Hp').
      exists p'. split; [assumption |].
      apply set_data_frame in Hp'. apply Hp'.
    - eexists. split; [reflexivity |]. apply analyze_fields.
    - eexists. split; reflexivity. }
  destruct Hc as (p' & -> & Hstep'). apply IH. congruence.
Qed.

(** * The claims *)

(** Claim C6.  For every finite sequence, every size >= 1 and every
    step >= 1, the windowing generator terminates (with any fuel above the
    number of slices, and with the fuel [_window] gives it) and yields
    exactly the slices [sequence[k*step : k*step + size]] for
    k = 0, 1, ..., n-1, where [n] is the first index whose slice is empty,
    which is the first [k] with [k*step >= len sequence]. *)
Theorem window_yields_slices {A : Type} (sequence : list A)
    (size step : Z) :
  1 <= size -> 1 <= step ->
  exists n : nat,
    _window sequence size step
    = Some (map (window_slice sequence size step) (seq 0 n))
    /\ (forall fuel : nat,
           (n < fuel)%nat ->
           window_loop fuel sequence size step 0
           = Some (map (window_slice sequence size step) (seq 0 n)))
    /\ (forall k : nat,
           (k < n)%nat ->
           window_slice sequence size step k <> []
           /\ Z.of_nat k * step < len sequence)
    /\ window_slice sequence size step n = []
    /\ len sequence <= Z.of_nat n * step.
Proof.
  intros Hsize Hstep.
  destruct (window_loop_returns sequence size step
              (window_fuel sequence size) (length sequence))
    as (n & Hn & Hret & Hstop & Hbefore).
  { unfold window_fuel. lia. }
  { unfold window_slice. apply py_slice_past_end. unfold len. nia. }
  exists n. split; [exact Hret |]. split; [| split; [| split]].
  - intros fuel Hfuel.
    apply (window_loop_stops sequence size step n fuel 0 Hfuel).
    + intros k Hk. rewrite window_slice_from_0. now apply Hbefore.
    + now rewrite window_slice_from_0.
  - intros k Hk. split; [now apply Hbefore |].
    specialize (Hbefore k Hk). unfold window_slice in Hbefore.
    rewrite window_empty_iff in Hbefore by nia. lia.
  - exact Hstop.
  - unfold window_slice in Hstop.
    rewrite window_empty_iff in Hstop by nia. exact Hstop.
Qed.

Lemma window_yields_slices_witness :
  1 <= 5 /\ 1 <= 2
  /\ exists n : nat,
       _window (Fixture.bytes_of "123456789") 5 2
       = Some (map (window_slice (Fixture.bytes_of "123456789") 5 2)
                   (seq 0 n))
       /\ (forall fuel : nat,
              (n < fuel)%nat ->
              window_loop fuel (Fixture.bytes_of "123456789") 5 2 0
              = Some (map (window_slice (Fixture.bytes_of "123456789") 5 2)
                          (seq 0 n)))
       /\ (forall k : nat,
              (k < n)%nat ->
              window_slice (Fixture.bytes_of "123456789") 5 2 k <> []
              /\ Z.of_nat k * 2 < len (Fixture.bytes_of "123456789"))
       /\ window_slice (Fixture.bytes_of "123456789") 5 2 n = []
       /\ len (Fixture.bytes_of "123456789") <= Z.of_nat n * 2.
Proof.
  split; [lia |]. split; [lia |].
  apply (window_yields_slices (Fixture.bytes_of "123456789") 5 2); lia.
Defined.

(** Claim C7.  [clear_results] empties the formatted and the raw result
    lists and changes nothing else: the buffer, the window index, the
    global offset, the configuration and the record of matcher calls are
    what they were. *)
Theorem clear_results_frame (p : Processor) :
  _formatted_results (clear_results p) = []
  /\ _raw_results (clear_results p) = []
  /\ results (clear_results p) = []
  /\ _current (clear_results p) = _current p
  /\ data (clear_results p) = data p
  /\ _window_index (clear_results p) = _window_index p
  /\ _offset (clear_results p) = _offset p
  /\ same_config p (clear_results p)
  /\ match_log (clear_results p) = match_log p.
Proof.
  unfold clear_results, same_config. simpl. repeat split.
Qed.

(** Claim C10.  [analyze] with an empty string is [analyze] with no
    argument: both scan the whole current buffer, and no value of the
    [data] argument makes [analyze] scan an empty input while the buffer
    holds something. *)
Theorem analyze_empty_is_analyze_none (p : Processor) :
  analyze p (Some []) = analyze p None
  /\ scanned p (Some []) = _current p
  /\ match_log (fst (analyze p (Some []))) = match_log p ++ [_current p]
  /\ (forall data : option bytes, scanned p data = [] -> _current p = []).
Proof.
  split; [reflexivity |]. split; [reflexivity |]. split.
  - destruct (analyze_fields p (Some []))
      as (_ & _ & _ & _ & _ & _ & Hlog).
    exact Hlog.
  - intros [[| c d] |] H; simpl in H; try assumption. discriminate.
Qed.

(** Claim C5.  Each local string offset the matcher reports for a buffer
    is translated to [_offset + local], with [_offset] the value held when
    [analyze] was called; in the chunking loop the records of a chunk use
    the offset from before that chunk's advance, which is added only once
    [analyze] is back. *)
Theorem offsets_use_base_before_advance (p : Processor)
    (data : option bytes) (chunk : bytes) (chunks : list bytes) :
  snd (analyze p data)
  = results p
      ++ map (format_match (_offset p)) (_rules p (scanned p data))
  /\ (forall r : YaraMatch.t,
         hit_offsets (format_match (_offset p) r)
         = map (fun s => _offset p + fst (fst s)) (YaraMatch.strings r))
  /\ results (dispatch_chunk p chunk)
     = results p
         ++ map (format_match (_offset p))
                (_rules p (scanned p (Some chunk)))
  /\ _offset (dispatch_chunk p chunk)
     = _offset (fst (analyze p (Some chunk))) + chunk_advance p chunk
  /\ _offset (fst (analyze p data))
     = (if (_processing_mode p =? "raw")%string
        then _offset p + len (scanned p data)
        else _offset p)
  /\ results (fold_left dispatch_chunk chunks p)
     = results p ++ chunk_records p (_offset p) chunks.
Proof.
  split; [apply analyze_returns |]. split; [| split; [| split; [| split]]].
  - intros r. unfold hit_offsets, format_match. simpl.
    rewrite map_map. apply map_ext. intros [[local identifier] matched].
    reflexivity.
  - apply dispatch_chunk_fields.
  - apply dispatch_chunk_fields.
  - apply analyze_fields.
  - apply fold_dispatch_results.
Qed.

(** ** Mode strings *)

Lemma unrecognised_tests (mode : string) :
  ~ In mode allowed_modes ->
  (mode =? "raw")%string = false
  /\ (mode =? "fixed_buffer")%string = false
  /\ (mode =? "sliding_window")%string = false.
Proof.
  unfold allowed_modes. simpl. intros H.
  rewrite !String.eqb_neq. repeat split; intros ->; tauto.
Qed.

(** The three mode strings are in lowercase. *)
Lemma allowed_modes_lowercase (mode : string) :
  In mode allowed_modes -> lower mode = mode.
Proof.
  simpl. intros [<- | [<- | [<- | []]]]; reflexivity.
Qed.

(** The constructor past the loading of the rules. *)
Lemma init_after_loading (w : World) (rule_files : list string)
    (mode : string) (compiled : bool) (kwargs : Kwargs)
    (files : rule_files_t) (rules : Rules) :
  validate_rule_files w rule_files = Ok tt ->
  load_rules w rule_files compiled = Ok (files, rules) ->
  __init__ w rule_files mode compiled kwargs
  = if str_in (lower mode) allowed_modes
    then
      let size := kwargs_get (buffer_size kwargs) 1024 in
      let step := kwargs_get (window_step kwargs) 1 in
      Ok (mkProcessor files rules allowed_modes mode size
            (if (mode =? "fixed_buffer")%string then size else step)
            [] [] [] None 0 0 [])
    else Raise (ProcessorException (unsupported_mode_message mode)).
Proof.
  intros Hv Hl. unfold __init__. rewrite Hv, Hl.
  destruct (str_in (lower mode) allowed_modes); reflexivity.
Qed.

(** Whatever the constructor returns has a mode that passed the
    case-insensitive test, a zero offset and no results. *)
Lemma init_state (w : World) (rule_files : list string) (mode : string)
    (compiled : bool) (kwargs : Kwargs) (p : Processor) :
  __init__ w rule_files mode compiled kwargs = Ok p ->
  In (lower mode) allowed_modes
  /\ _processing_mode p = mode
  /\ _offset p = 0
  /\ _window_index p = 0
  /\ _current p = []
  /\ _raw_results p = []
  /\ _formatted_results p = []
  /\ match_log p = []
  /\ _buffer_size p = kwargs_get (buffer_size kwargs) 1024
  /\ _window_step p
     = if (mode =? "fixed_buffer")%string
       then kwargs_get (buffer_size kwargs) 1024
       else kwargs_get (window_step kwargs) 1.
Proof.
  unfold __init__.
  destruct (validate_rule_files w rule_files); [| discriminate].
  destruct (load_rules w rule_files compiled) as [[files rules] |];
    [| discriminate].
  destruct (str_in (lower mode) allowed_modes) eqn:Hmode; cbn [negb];
    [| discriminate].
  intros [= <-]. split; [now apply str_in_In |]. simpl. repeat split.
Qed.

Lemma flat_map_ext_in {X Y : Type} (f g : X -> list Y) (l : list X) :
  (forall x, In x l -> f x = g x) -> flat_map f l = flat_map g l.
Proof.
  intros H. induction l as [| x l IH]; simpl; [reflexivity |].
  rewrite (H x) by now left.
  rewrite IH by (intros y Hy; apply H; now right). reflexivity.
Qed.

(** The raw matches the chunking loop adds: those of each chunk, in
    order. *)
Lemma fold_dispatch_raw (chunks : list bytes) :
  forall p : Processor,
    _raw_results (fold_left dispatch_chunk chunks p)
    = _raw_results p
        ++ flat_map (fun c => _rules p (scanned p (Some c))) chunks.
Proof.
  induction chunks as [| c chunks IH]; intros p; cbn [fold_left flat_map].
  - now rewrite app_nil_r.
  - destruct (dispatch_chunk_fields p c)
      as (Hcfg & Hraw & _ & Hcur & _).
    destruct Hcfg as (_ & Hrules & _).
    rewrite IH, Hraw, <- app_assoc. do 2 f_equal.
    apply flat_map_ext. intros c'. unfold scanned.
    now rewrite Hrules, Hcur.
Qed.

(** With a mode that none of the later tests recognises, no primitive
    step moves [_offset] and the records keep the matcher's offsets. *)
Section UnrecognisedMode.
Variable mode : string.
Hypothesis Hmode : ~ In mode allowed_modes.

Lemma analyze_stuck (p : Processor) (d : option bytes) :
  stuck mode p -> stuck mode (fst (analyze p d)).
Proof.
  intros (Hm & Ho & Hl).
  destruct (unrecognised_tests mode Hmode) as (Hraw & _).
  destruct (analyze_fields p d)
    as (Hcfg & Hr & Hf & _ & _ & Hoff & _).
  destruct Hcfg as (_ & _ & _ & Hm' & _).
  rewrite Hm, Hraw in Hoff.
  split; [congruence |]. split; [congruence |].
  unfold local_offsets in *.
  rewrite Hf, Hr, map_app, Hl, Ho. reflexivity.
Qed.

Lemma dispatch_chunk_stuck (p : Processor) (c : bytes) :
  stuck mode p -> stuck mode (dispatch_chunk p c).
Proof.
  intros Hp. pose proof (analyze_stuck p (Some c) Hp) as (_ & Ho' & _).
  destruct Hp as (Hm & Ho & Hl).
  destruct (unrecognised_tests mode Hmode) as (_ & Hfix & Hslide).
  destruct (dispatch_chunk_fields p c)
    as (Hcfg & Hr & Hf & _ & _ & Hoff & _).
  destruct Hcfg as (_ & _ & _ & Hm' & _).
  unfold chunk_advance in Hoff. rewrite Hm, Hfix, Hslide, Ho' in Hoff.
  split; [congruence |]. split; [exact Hoff |].
  unfold local_offsets in *.
  rewrite Hf, Hr, map_app, Hl, Ho. reflexivity.
Qed.

Lemma run_stuck (calls : list call) (p q : Processor) :
  stuck mode p -> run p calls = Some q -> stuck mode q.
Proof.
  apply (run_preserves (stuck mode)).
  - apply analyze_stuck.
  - apply dispatch_chunk_stuck.
  - intros p' v Hp'. exact Hp'.
  - intros p' i Hp'. exact Hp'.
  - intros p' (Hm & Ho & _). repeat split; assumption.
Qed.

(** The chunking loop in such a mode: the offset stays, and every chunk's
    records are counted from that one offset. *)
Lemma fold_dispatch_unrecognised (chunks : list bytes) :
  forall p : Processor,
    _processing_mode p = mode ->
    _offset (fold_left dispatch_chunk chunks p) = _offset p
    /\ _formatted_results (fold_left dispatch_chunk chunks p)
       = _formatted_results p
           ++ flat_map (fun c => map (format_match (_offset p))
                                     (_rules p (scanned p (Some c))))
                       chunks.
Proof.
  destruct (unrecognised_tests mode Hmode) as (Hraw & Hfix & Hslide).
  induction chunks as [| c chunks IH]; intros p Hm;
    cbn [fold_left flat_map].
  - now rewrite app_nil_r.
  - destruct (dispatch_chunk_fields p c)
      as (Hcfg & _ & Hfmt & Hcur & _ & Hoff & _).
    destruct (analyze_fields p (Some c))
      as (_ & _ & _ & _ & _ & Hoff' & _).
    destruct Hcfg as (_ & Hrules & _ & Hm' & _).
    unfold chunk_advance in Hoff.
    rewrite Hoff', Hm, Hraw, Hfix, Hslide, Z.add_0_r in Hoff.
    destruct (IH (dispatch_chunk p c)) as (IHoff & IHfmt);
      [congruence |].
    rewrite IHoff, IHfmt, Hoff, Hfmt, <- app_assoc. split; [reflexivity |].
    do 2 f_equal. apply flat_map_ext. intros c'.
    unfold scanned. now rewrite Hrules, Hcur.
Qed.

End UnrecognisedMode.

(** Claim C9.  The constructor tests the lowercase form of the mode, so
    construction succeeds (once the rules are loaded) whenever that form
    is one of raw, fixed_buffer, sliding_window; but it stores the mode as
    given, and every later test compares the stored string exactly.  So
    for a recognised mode that is not in lowercase (such as "Raw"): none
    of the three later tests holds; an assignment to [data] that brings
    [_buffer_size] pending bytes runs the chunking loop, which (for a
    size and step of at least 1) hands the matcher every window of the
    pending bytes, at least one, records the matches of each, all counted
    from the one offset the pass began with, and leaves the offset where
    it was; and throughout every session [_offset] stays 0 and every
    formatted record keeps the offsets local to the buffer it was found
    in.  Sessions return whenever the window step is not zero. *)
Theorem mixed_case_mode_is_stuck (mode : string) :
  In (lower mode) allowed_modes ->
  (forall w rule_files compiled kwargs files rules,
      validate_rule_files w rule_files = Ok tt ->
      load_rules w rule_files compiled = Ok (files, rules) ->
      exists p,
        __init__ w rule_files mode compiled kwargs = Ok p
        /\ _processing_mode p = mode)
  /\ (lower mode <> mode ->
      ((mode =? "raw")%string = false
       /\ (mode =? "fixed_buffer")%string = false
       /\ (mode =? "sliding_window")%string = false)
      /\ (forall p value,
             _processing_mode p = mode ->
             value <> [] ->
             _buffer_size p
             <= len (py_slice value (_window_index p) None) ->
             set_data p value
             = match _window (py_slice value (_window_index p) None)
                             (_buffer_size p) (_window_step p) with
               | None => None
               | Some chunks =>
                   Some (with_window_index
                           (fold_left dispatch_chunk chunks
                                      (with_current p value))
                           (len value))
               end)
      /\ (forall p value,
             _processing_mode p = mode ->
             value <> [] ->
             1 <= _buffer_size p
               <= len (py_slice value (_window_index p) None) ->
             1 <= _window_step p ->
             exists (n : nat) (q : Processor),
               set_data p value = Some q
               /\ (1 <= n)%nat
               /\ match_log q
                  = match_log p
                      ++ map (window_slice
                                (py_slice value (_window_index p) None)
                                (_buffer_size p) (_window_step p))
                             (seq 0 n)
               /\ _raw_results q
                  = _raw_results p
                      ++ flat_map (_rules p)
                           (map (window_slice
                                   (py_slice value (_window_index p) None)
                                   (_buffer_size p) (_window_step p))
                                (seq 0 n))
               /\ results q
                  = results p
                      ++ flat_map
                           (fun c => map (format_match (_offset p))
                                         (_rules p c))
                           (map (window_slice
                                   (py_slice value (_window_index p) None)
                                   (_buffer_size p) (_window_step p))
                                (seq 0 n))
               /\ _offset q = _offset p
               /\ _window_index q = len value)
      /\ (forall w rule_files compiled kwargs calls q,
             session w rule_files mode compiled kwargs calls = Some q ->
             _processing_mode q = mode
             /\ _offset q = 0
             /\ local_offsets q)
      /\ (forall w rule_files compiled kwargs p calls,
             __init__ w rule_files mode compiled kwargs = Ok p ->
             kwargs_get (window_step kwargs) 1 <> 0 ->
             exists q, run p calls = Some q)).
Proof.
  intros Hlower. split.
  - intros w rule_files compiled kwargs files rules Hv Hl.
    rewrite (init_after_loading _ _ _ _ _ files rules Hv Hl).
    rewrite (proj2 (str_in_In _ _) Hlower).
    eexists. split; reflexivity.
  - intros Hcase.
    assert (Hexact : ~ In mode allowed_modes).
    { intros Hin. apply Hcase. now apply allowed_modes_lowercase. }
    pose proof (unrecognised_tests mode Hexact) as Htests.
    split; [exact Htests | split; [| split; [| split]]].
    + intros p value Hm Hne Hsize.
      rewrite set_data_unfold, Hm. destruct Htests as (-> & _).
      cbv zeta. apply truthy_true_iff in Hne. rewrite Hne.
      apply Z.leb_le in Hsize. rewrite Hsize. reflexivity.
    + intros p value Hm Hne [Hsize Hfull] Hstep.
      set (pending := py_slice value (_window_index p) None) in *.
      destruct (window_spec pending (_buffer_size p) (_window_step p)
                            Hsize Hstep) as (n & Hret & _ & Hstop).
      set (chunks := map (window_slice pending (_buffer_size p)
                                       (_window_step p)) (seq 0 n)) in *.
      assert (Hnonempty : forall c, In c chunks -> c <> [])
        by (eapply window_loop_nonempty; exact Hret).
      exists n. eexists.
      rewrite set_data_unfold, Hm. destruct Htests as (-> & _).
      cbv zeta. fold pending.
      apply truthy_true_iff in Hne. rewrite Hne.
      pose proof Hfull as Hfull'.
      apply Z.leb_le in Hfull'. rewrite Hfull'. cbn [andb].
      rewrite Hret. split; [reflexivity |].
      destruct (fold_dispatch_frame chunks (with_current p value))
        as (_ & _ & _ & Hlog).
      rewrite map_scanned_nonempty in Hlog by exact Hnonempty.
      pose proof (fold_dispatch_raw chunks (with_current p value)) as Hraw.
      destruct (fold_dispatch_unrecognised mode Hexact chunks
                  (with_current p value) Hm) as (Hoff & Hfmt).
      rewrite (flat_map_ext_in
                 (fun c => _rules (with_current p value)
                             (scanned (with_current p value) (Some c)))
                 (_rules p) chunks) in Hraw
        by (intros c Hc; now rewrite scanned_nonempty by auto).
      rewrite (flat_map_ext_in
                 (fun c => map (format_match
                                  (_offset (with_current p value)))
                               (_rules (with_current p value)
                                  (scanned (with_current p value)
                                           (Some c))))
                 (fun c => map (format_match (_offset p)) (_rules p c))
                 chunks) in Hfmt
        by (intros c Hc; now rewrite scanned_nonempty by auto).
      unfold results.
      cbn [_offset _formatted_results _raw_results match_log
           _window_index with_window_index].
      cbn [_offset _formatted_results _raw_results match_log
           with_current] in Hlog, Hraw, Hoff, Hfmt.
      rewrite Hlog, Hraw, Hoff, Hfmt.
      split; [| repeat split].
      destruct n as [| n]; [| lia]. simpl in Hstop. lia.
    + intros w rule_files compiled kwargs calls q. unfold session.
      destruct (__init__ w rule_files mode compiled kwargs) as [p |]
        eqn:Hp; [| discriminate].
      apply init_state in Hp.
      destruct Hp as (_ & Hm & Ho & _ & _ & Hraw & Hfmt & _).
      apply (run_stuck mode Hexact).
      unfold stuck, local_offsets. rewrite Hraw, Hfmt. auto.
    + intros w rule_files compiled kwargs p calls Hp Hstep.
      apply run_total. apply init_state in Hp.
      destruct Hp as (_ & _ & _ & _ & _ & _ & _ & _ & _ & ->).
      destruct Htests as (_ & -> & _). exact Hstep.
Qed.

Lemma mixed_case_mode_is_stuck_witness :
  In (lower "Raw") allowed_modes
  /\ lower "Raw" <> "Raw"%string
  /\ (exists (n : nat) (q : Processor),
         set_data (Fixture.fresh Fixture.dirty "Raw" 5 2)
                  (Fixture.bytes_of "a dirty dirty") = Some q
         /\ (1 <= n)%nat
         /\ match_log q
            = map (window_slice (Fixture.bytes_of "a dirty dirty") 5 2)
                  (seq 0 n)
         /\ _raw_results q
            = flat_map Fixture.dirty
                (map (window_slice (Fixture.bytes_of "a dirty dirty") 5 2)
                     (seq 0 n))
         /\ results q
            = flat_map (fun c => map (format_match 0) (Fixture.dirty c))
                (map (window_slice (Fixture.bytes_of "a dirty dirty") 5 2)
                     (seq 0 n))
         /\ _offset q = 0
         /\ _window_index q = 13)
  /\ (exists q : Processor,
         session (Fixture.world Fixture.dirty) ["./test.rule"%string]
                 "Raw" false (Fixture.kwargs 5 2)
                 [Append (Fixture.bytes_of "a dirty dirty")]
         = Some q
         /\ map (@string_of_list_ascii) (match_log q)
            = ["a dir"; "dirty"; "rty d"; "y dir"; "dirty"; "rty"; "y"]%string
         /\ map hit_offsets (results q) = [[0]; [0]]
         /\ _processing_mode q = "Raw"%string
         /\ _offset q = 0
         /\ local_offsets q).
Proof.
  assert (Hlower : In (lower "Raw") allowed_modes)
    by (simpl; auto).
  assert (Hcase : lower "Raw" <> "Raw"%string)
    by (simpl; discriminate).
  destruct (proj2 (mixed_case_mode_is_stuck "Raw" Hlower) Hcase)
    as (_ & _ & Hpass & Hsession & _).
  split; [exact Hlower |]. split; [exact Hcase |]. split.
  - apply (Hpass (Fixture.fresh Fixture.dirty "Raw" 5 2)
                 (Fixture.bytes_of "a dirty dirty")).
    + reflexivity.
    + discriminate.
    + vm_compute. split; discriminate.
    + vm_compute. discriminate.
  - eexists. split; [vm_compute; reflexivity |].
    split; [vm_compute; reflexivity |].
    split; [vm_compute; reflexivity |].
    apply (Hsession (Fixture.world Fixture.dirty) ["./test.rule"%string]
                    false (Fixture.kwargs 5 2)
                    [Append (Fixture.bytes_of "a dirty dirty")]).
    vm_compute. reflexivity.
Defined.



(** Claim C1, on the code: in raw mode, with the rule for "dirty" and the
    buffer "This is a dirty string.", a first [analyze] leaves one record;
    a second [analyze] finds one new match and returns two records, the
    old one (offset 10) followed by the new one (offset 33): the whole
    history, not the records of the call. *)
Theorem second_analyze_returns_history :
  exists p1 : Processor,
    session (Fixture.world Fixture.dirty) ["./test.rule"%string] "raw"
            false Fixture.no_kwargs
            [SetData (Fixture.bytes_of "This is a dirty string.");
             Analyze None]
    = Some p1
    /\ length (results p1) = 1%nat
    /\ length (_rules p1 (scanned p1 None)) = 1%nat
    /\ length (snd (analyze p1 None)) = 2%nat
    /\ map hit_offsets (snd (analyze p1 None)) = [[10]; [33]].
Proof.
  eexists. split; [vm_compute; reflexivity |].
  vm_compute. repeat split.
Qed.

(** Claim C2, on the code: in fixed_buffer mode with size 5, one append
    of "123456789" hands the matcher "12345" and then the 4-byte tail
    "6789"; the window index moves to 9, so a later append of "0" hands
    the matcher nothing, and "67890" is never scanned. *)
Theorem fixed_buffer_dispatches_short_tail :
  exists p1 p2 : Processor,
    session (Fixture.world Fixture.whole) ["./test.rule"%string]
            "fixed_buffer" false (Fixture.kwargs 5 1)
            [Append (Fixture.bytes_of "123456789")]
    = Some p1
    /\ match_log p1 = [Fixture.bytes_of "12345"; Fixture.bytes_of "6789"]
    /\ _window_index p1 = 9
    /\ append p1 (Fixture.bytes_of "0") = Some p2
    /\ data p2 = Fixture.bytes_of "1234567890"
    /\ match_log p2 = [Fixture.bytes_of "12345"; Fixture.bytes_of "6789"].
Proof.
  eexists. eexists. split; [vm_compute; reflexivity |].
  split; [vm_compute; reflexivity |].
  split; [vm_compute; reflexivity |].
  split; [vm_compute; reflexivity |].
  vm_compute. split; reflexivity.
Qed.

(** Claim C3, on the code: in sliding_window mode with size 5 and step 2,
    one append of "123456789" hands the matcher five buffers, "12345",
    "34567", "56789", "789" and "9", translated from the bases 0, 2, 4, 6
    and 8, and leaves the offset at 10. *)
Theorem sliding_window_dispatches_short_tails :
  exists p1 : Processor,
    session (Fixture.world Fixture.whole) ["./test.rule"%string]
            "sliding_window" false (Fixture.kwargs 5 2)
            [Append (Fixture.bytes_of "123456789")]
    = Some p1
    /\ match_log p1
       = map Fixture.bytes_of
             ["12345"; "34567"; "56789"; "789"; "9"]%string
    /\ map hit_offsets (results p1) = [[0]; [2]; [4]; [6]; [8]]
    /\ _offset p1 = 10.
Proof.
  eexists. split; [vm_compute; reflexivity |].
  vm_compute. repeat split.
Qed.

(** Claim C4, on the code: in fixed_buffer mode with size 5, after one
    append of "123456789" the matcher has been given one complete buffer,
    and the offset is 9, the number of bytes it was given, not 5 * 1. *)
Theorem fixed_buffer_offset_counts_short_tail :
  exists p1 : Processor,
    session (Fixture.world Fixture.whole) ["./test.rule"%string]
            "fixed_buffer" false (Fixture.kwargs 5 1)
            [Append (Fixture.bytes_of "123456789")]
    = Some p1
    /\ complete_dispatches p1 = 1
    /\ _buffer_size p1 * complete_dispatches p1 = 5
    /\ _offset p1 = 9
    /\ total_len (match_log p1) = 9.
Proof.
  eexists. split; [vm_compute; reflexivity |].
  vm_compute. repeat split.
Qed.


(** * Further properties *)

(** ** The windowing generator, continued *)

Section WindowMore.
Context {A : Type}.
Implicit Types (sequence : list A) (size step : Z).

Lemma nth_error_window_slices sequence size step (n k : nat) (c : list A) :
  nth_error (map (window_slice sequence size step) (seq 0 n)) k = Some c ->
  (k < n)%nat /\ c = window_slice sequence size step k.
Proof.
  rewrite nth_error_map, nth_error_seq.
  destruct (Nat.ltb_spec k n); simpl; [| discriminate].
  intros [= <-]. split; [assumption | reflexivity].
Qed.

(** The number of slices before the first empty one. *)
Lemma window_count (len_ step : Z) (n : nat) :
  0 <= len_ -> 1 <= step ->
  (forall k : nat, (k < n)%nat -> Z.of_nat k * step < len_) ->
  len_ <= Z.of_nat n * step ->
  Z.of_nat n = ceil_div len_ step.
Proof.
  intros Hlen Hstep Hbefore Hstop. unfold ceil_div.
  apply (Z.div_unique_pos _ _ _ (len_ + step - 1 - step * Z.of_nat n));
    [| lia].
  destruct n as [| n].
  - simpl in Hstop. lia.
  - specialize (Hbefore n (Nat.lt_succ_diag_r n)). lia.
Qed.

(** Property X1.  For a positive size and step the generator yields
    [ceil(len / step)] chunks; the [k]-th holds
    [min size (len - k*step)] elements, so no chunk is empty and none is
    longer than [size]. *)
Theorem window_count_and_lengths sequence size step :
  1 <= size -> 1 <= step ->
  exists chunks : list (list A),
    _window sequence size step = Some chunks
    /\ Z.of_nat (length chunks) = ceil_div (len sequence) step
    /\ forall (k : nat) (c : list A),
         nth_error chunks k = Some c ->
         len c = Z.min size (len sequence - Z.of_nat k * step)
         /\ 1 <= len c <= size.
Proof.
  intros Hsize Hstep.
  destruct (window_spec sequence size step Hsize Hstep)
    as (n & Hret & Hbefore & Hstop).
  eexists. split; [exact Hret |]. split.
  - rewrite length_map, length_seq.
    apply window_count; auto. apply len_nonneg.
  - intros k c Hk. apply nth_error_window_slices in Hk.
    destruct Hk as (Hk & ->). specialize (Hbefore k Hk).
    rewrite window_slice_len by assumption. lia.
Qed.

(** With the step equal to the size the loop cuts the rest of the
    sequence into consecutive pieces. *)
Lemma window_loop_partition sequence size :
  1 <= size ->
  forall (fuel : nat) (i : Z) (chunks : list (list A)),
    0 <= i ->
    window_loop fuel sequence size size i = Some chunks ->
    concat chunks = skipn (Z.to_nat i) sequence.
Proof.
  intros Hsize. induction fuel as [| fuel IH]; intros i chunks Hi H;
    [discriminate |].
  simpl in H.
  destruct (truthy (py_slice sequence i (Some (i + size)))) eqn:Hhead.
  - destruct (window_loop fuel sequence size size (i + size)) as [rest |]
      eqn:Hrest; [| discriminate].
    injection H as <-. simpl.
    rewrite (IH (i + size) rest) by (auto; lia).
    rewrite py_slice_window by lia.
    replace (Z.to_nat (i + size)) with (Z.to_nat size + Z.to_nat i)%nat
      by lia.
    rewrite <- skipn_skipn. apply firstn_skipn.
  - injection H as <-. apply truthy_false_iff in Hhead.
    apply window_empty_iff in Hhead; [| lia | lia].
    simpl. symmetry. apply skipn_all2. unfold len in Hhead. lia.
Qed.

(** Property X2.  With the step equal to the size (what fixed_buffer mode passes)
    the chunks are a partition of the sequence: put end to end they give
    it back, nothing lost, repeated or reordered. *)
Theorem window_fixed_partitions sequence size :
  1 <= size ->
  exists chunks : list (list A),
    _window sequence size size = Some chunks
    /\ concat chunks = sequence.
Proof.
  intros Hsize.
  destruct (window_spec sequence size size Hsize Hsize)
    as (n & Hret & _).
  eexists. split; [exact Hret |].
  apply (window_loop_partition sequence size Hsize _ 0 _ (Z.le_refl 0) Hret).
Qed.

(** Property X3.  Which elements the windows reach: for a positive size and step,
    the element at index [j] lies in one of the yielded chunks exactly
    when [j mod step < size].  So a step of at most [size] leaves nothing
    out, and a larger step skips the elements between one window's end
    and the next window's start. *)
Theorem window_reaches_iff sequence size step (j : Z) :
  1 <= size -> 1 <= step ->
  0 <= j < len sequence ->
  exists n : nat,
    _window sequence size step
    = Some (map (window_slice sequence size step) (seq 0 n))
    /\ ((exists k : nat,
            (k < n)%nat
            /\ Z.of_nat k * step <= j
               < Z.of_nat k * step
                 + len (window_slice sequence size step k))
        <-> j mod step < size).
Proof.
  intros Hsize Hstep Hj.
  destruct (window_spec sequence size step Hsize Hstep)
    as (n & Hret & Hbefore & Hstop).
  exists n. split; [exact Hret |]. split.
  - intros (k & Hk & Hlo & Hhi).
    rewrite window_slice_len in Hhi by assumption.
    destruct (Z.le_gt_cases step size) as [Hle | Hgt].
    + pose proof (Z.mod_pos_bound j step). lia.
    + assert (Hr : j mod step = j - Z.of_nat k * step)
        by (symmetry; apply (Z.mod_unique_pos j step (Z.of_nat k)); lia).
      lia.
  - intros Hmod.
    pose proof (Z.div_mod j step) as Hdm.
    pose proof (Z.mod_pos_bound j step) as Hmb.
    assert (Hq : 0 <= j / step) by (apply Z.div_pos; lia).
    exists (Z.to_nat (j / step)).
    rewrite window_slice_len by assumption.
    rewrite Z2Nat.id by assumption.
    split; [| lia].
    destruct (Nat.lt_ge_cases (Z.to_nat (j / step)) n) as [Hlt | Hge];
      [assumption |].
    assert (Z.of_nat n <= j / step) by lia. nia.
Qed.

End WindowMore.

Lemma window_count_and_lengths_witness :
  1 <= 5 /\ 1 <= 2
  /\ exists chunks : list bytes,
       _window (Fixture.bytes_of "123456789") 5 2 = Some chunks
       /\ Z.of_nat (length chunks)
          = ceil_div (len (Fixture.bytes_of "123456789")) 2
       /\ forall (k : nat) (c : bytes),
            nth_error chunks k = Some c ->
            len c
            = Z.min 5 (len (Fixture.bytes_of "123456789") - Z.of_nat k * 2)
            /\ 1 <= len c <= 5.
Proof.
  split; [lia |]. split; [lia |].
  apply (window_count_and_lengths (Fixture.bytes_of "123456789") 5 2); lia.
Defined.

Lemma window_fixed_partitions_witness :
  1 <= 5
  /\ exists chunks : list bytes,
       _window (Fixture.bytes_of "123456789") 5 5 = Some chunks
       /\ concat chunks = Fixture.bytes_of "123456789".
Proof.
  split; [lia |].
  apply (window_fixed_partitions (Fixture.bytes_of "123456789") 5); lia.
Defined.

Lemma window_reaches_iff_witness :
  1 <= 2 /\ 1 <= 3 /\ 0 <= 2 < len (Fixture.bytes_of "123456789")
  /\ exists n : nat,
       _window (Fixture.bytes_of "123456789") 2 3
       = Some (map (window_slice (Fixture.bytes_of "123456789") 2 3)
                   (seq 0 n))
       /\ ((exists k : nat,
               (k < n)%nat
               /\ Z.of_nat k * 3 <= 2
                  < Z.of_nat k * 3
                    + len (window_slice (Fixture.bytes_of "123456789")
                                        2 3 k))
           <-> 2 mod 3 < 2).
Proof.
  assert (H : 0 <= 2 < len (Fixture.bytes_of "123456789"))
    by (vm_compute; split; [discriminate | reflexivity]).
  split; [lia |]. split; [lia |]. split; [exact H |].
  apply (window_reaches_iff (Fixture.bytes_of "123456789") 2 3 2); lia || exact H.
Defined.

(** ** _prepare_rules *)

Lemma decimal_injective (i j : nat) : decimal i = decimal j -> i = j.
Proof.
  unfold decimal. intros H.
  apply (f_equal NilEmpty.uint_of_string) in H.
  rewrite !NilEmpty.usu in H. injection H as H.
  apply (f_equal Nat.of_uint) in H.
  now rewrite !Unsigned.of_to in H.
Qed.

Lemma namespace_injective (i j : nat) :
  ("RuleFile" ++ decimal i)%string = ("RuleFile" ++ decimal j)%string ->
  i = j.
Proof.
  intros H. apply decimal_injective. simpl in H. now inversion H.
Qed.

Lemma NoDup_map_injective {X Y : Type} (f : X -> Y) (l : list X) :
  (forall x y, f x = f y -> x = y) -> NoDup l -> NoDup (map f l).
Proof.
  intros Hinj Hl. induction Hl as [| x l Hx Hl IH]; simpl; constructor.
  - intros Hin. apply in_map_iff in Hin. destruct Hin as (y & Hy & Hin).
    apply Hinj in Hy. now subst.
  - exact IH.
Qed.

Lemma prepare_rules_from_spec (rules : list string) :
  forall i : nat,
    map snd (prepare_rules_from i rules) = rules
    /\ map fst (prepare_rules_from i rules)
       = map (fun k => ("RuleFile" ++ decimal k)%string)
             (seq i (length rules)).
Proof.
  induction rules as [| fn rules IH]; intros i; [split; reflexivity |].
  destruct (IH (S i)) as (Hsnd & Hfst).
  cbn [prepare_rules_from map length seq fst snd].
  rewrite Hsnd, Hfst. split; reflexivity.
Qed.

(** Property X4.  [_prepare_rules] gives every rule file a namespace of its own:
    the dictionary lists the files in the order given, the [i]-th under
    the key RuleFile<i> in decimal, and no two keys are equal, so no file
    displaces another. *)
Theorem prepare_rules_namespaces (rules : list string) :
  map snd (_prepare_rules rules) = rules
  /\ map fst (_prepare_rules rules)
     = map (fun k => ("RuleFile" ++ decimal k)%string)
           (seq 0 (length rules))
  /\ NoDup (map fst (_prepare_rules rules)).
Proof.
  unfold _prepare_rules.
  destruct (prepare_rules_from_spec rules 0) as (Hsnd & Hfst).
  split; [exact Hsnd |]. split; [exact Hfst |].
  rewrite Hfst. apply NoDup_map_injective.
  - apply namespace_injective.
  - apply seq_NoDup.
Qed.

(** ** The constructor *)

(** Property X5.  The check of the rule files succeeds exactly when every file
    exists and can be opened; otherwise the constructor's loop raises an
    IOError for the first file that fails, ENOENT if it does not exist
    and EACCES if it exists but cannot be read.  Files after it are not
    looked at. *)
Theorem validate_rule_files_first_failure (w : World)
    (rule_files : list string) :
  (validate_rule_files w rule_files = Ok tt
   <-> Forall (fun f => isfile w f = true /\ can_open w f = true)
              rule_files)
  /\ forall (good : list string) (f : string) (rest : list string),
       rule_files = good ++ f :: rest ->
       Forall (fun g => isfile w g = true /\ can_open w g = true) good ->
       (isfile w f = false ->
        validate_rule_files w rule_files
        = Raise (IOError ENOENT "Cannot find file." f))
       /\ (isfile w f = true -> can_open w f = false ->
           validate_rule_files w rule_files
           = Raise (IOError EACCES "Cannot open/read file." f)).
Proof.
  split.
  - induction rule_files as [| f rest IH]; simpl.
    + split; [constructor | reflexivity].
    + destruct (isfile w f) eqn:Hf; [destruct (can_open w f) eqn:Ho |].
      * rewrite IH. split.
        -- intros H. constructor; [split; assumption | exact H].
        -- intros H. now inversion H.
      * split; [discriminate |]. intros H. inversion H as [| ? ? [_ Hc] _].
        congruence.
      * split; [discriminate |]. intros H. inversion H as [| ? ? [Hc _] _].
        congruence.
  - intros good f rest -> Hgood.
    induction Hgood as [| g good [Hg Ho] _ IH]; simpl.
    + split.
      * intros ->. reflexivity.
      * intros -> ->. reflexivity.
    + rewrite Hg, Ho. exact IH.
Qed.


(** Property X7.  The constructor reports the first check that fails, in the
    order: rule files, loading of the rules, processing mode.  It raises
    [e] exactly when the file check raises [e], or the files pass and the
    loading raises [e], or both pass, the lowercase mode is not an
    allowed one and [e] is the unsupported-mode ProcessorException; so a
    bad mode never hides a missing file or a rule error. *)
Theorem init_reports_first_failure (w : World) (rule_files : list string)
    (mode : string) (compiled : bool) (kwargs : Kwargs) (e : exn) :
  __init__ w rule_files mode compiled kwargs = Raise e
  <-> validate_rule_files w rule_files = Raise e
      \/ (validate_rule_files w rule_files = Ok tt
          /\ load_rules w rule_files compiled = Raise e)
      \/ (validate_rule_files w rule_files = Ok tt
          /\ (exists loaded, load_rules w rule_files compiled = Ok loaded)
          /\ ~ In (lower mode) allowed_modes
          /\ e = ProcessorException (unsupported_mode_message mode)).
Proof.
  unfold __init__.
  destruct (validate_rule_files w rule_files) as [[] | e1].
  - destruct (load_rules w rule_files compiled) as [[files rules] | e2].
    + destruct (str_in (lower mode) allowed_modes) eqn:Hmode; cbn [negb].
      * apply str_in_In in Hmode. split; [discriminate |].
        intros [H | [[_ H] | (_ & _ & Hn & _)]];
          [discriminate | discriminate | contradiction].
      * assert (Hn : ~ In (lower mode) allowed_modes).
        { intros Hin. apply str_in_In in Hin. congruence. }
        split.
        -- intros [= <-]. right. right. eauto 6.
        -- intros [H | [[_ H] | (_ & _ & _ & ->)]];
             [discriminate | discriminate | reflexivity].
    + split.
      * intros [= <-]. right. left. auto.
      * intros [H | [[_ H] | (_ & (loaded & H) & _)]];
          [discriminate | congruence | discriminate].
  - split.
    + intros [= <-]. now left.
    + intros [H | [[H _] | (H & _)]]; [congruence | discriminate ..].
Qed.

Lemma lower_ascii_idempotent (c : ascii) :
  lower_ascii (lower_ascii c) = lower_ascii c.
Proof.
  destruct c as [[] [] [] [] [] [] [] []]; reflexivity.
Qed.

Lemma lower_idempotent (s : string) : lower (lower s) = lower s.
Proof.
  induction s as [| c s IH]; simpl; [reflexivity |].
  now rewrite lower_ascii_idempotent, IH.
Qed.

(** Property X8.  The mode test does not see letter case: a mode is accepted by
    the constructor exactly when its lowercase form is, all else being
    equal. *)
Theorem init_accepts_up_to_case (w : World) (rule_files : list string)
    (mode : string) (compiled : bool) (kwargs : Kwargs) :
  (exists p, __init__ w rule_files mode compiled kwargs = Ok p)
  <-> (exists p, __init__ w rule_files (lower mode) compiled kwargs = Ok p).
Proof.
  unfold __init__.
  destruct (validate_rule_files w rule_files) as [[] | e1];
    [| split; intros (p & H); discriminate].
  destruct (load_rules w rule_files compiled) as [[files rules] | e2];
    [| split; intros (p & H); discriminate].
  rewrite lower_idempotent.
  destruct (str_in (lower mode) allowed_modes); cbn [negb].
  - split; intros _; eauto.
  - split; intros (p & H); discriminate.
Qed.

(** Property X9.  In fixed_buffer mode the [window_step] argument is ignored: the
    step of the Processor is its buffer size, whatever was passed. *)
Theorem fixed_buffer_ignores_window_step (w : World)
    (rule_files : list string) (compiled : bool)
    (size step step' : option Z) :
  __init__ w rule_files "fixed_buffer" compiled
           {| buffer_size := size; window_step := step |}
  = __init__ w rule_files "fixed_buffer" compiled
             {| buffer_size := size; window_step := step' |}
  /\ forall p,
       __init__ w rule_files "fixed_buffer" compiled
                {| buffer_size := size; window_step := step |} = Ok p ->
       _window_step p = _buffer_size p
       /\ _buffer_size p = kwargs_get size 1024.
Proof.
  split.
  - unfold __init__.
    destruct (validate_rule_files w rule_files); [| reflexivity].
    destruct (load_rules w rule_files compiled) as [[files rules] |];
      reflexivity.
  - intros p Hp. apply init_state in Hp.
    destruct Hp as (_ & _ & _ & _ & _ & _ & _ & _ & Hsize & Hstep).
    simpl in *. split; congruence.
Qed.

(** ** analyze and the result lists *)

(** Property X10.  [analyze] right after [clear_results] returns the records of
    that one call, and the raw list holds exactly the matches of that
    call. *)
Theorem analyze_after_clear (p : Processor) (d : option bytes) :
  snd (analyze (clear_results p) d)
  = map (format_match (_offset p)) (_rules p (scanned p d))
  /\ _raw_results (fst (analyze (clear_results p) d))
     = _rules p (scanned p d).
Proof.
  split.
  - rewrite analyze_returns. reflexivity.
  - destruct (analyze_fields (clear_results p) d) as (_ & Hraw & _).
    rewrite Hraw. reflexivity.
Qed.

(** Property X11.  [analyze] never touches the buffer, the window index or the
    configuration; it hands the matcher exactly one buffer; and it moves
    the offset in raw mode only, there by the length of the buffer
    scanned.  In the other modes an explicit [analyze] leaves the offset
    where the chunking loop put it. *)
Theorem analyze_frame (p : Processor) (d : option bytes) :
  same_config p (fst (analyze p d))
  /\ data (fst (analyze p d)) = data p
  /\ _window_index (fst (analyze p d)) = _window_index p
  /\ match_log (fst (analyze p d)) = match_log p ++ [scanned p d]
  /\ (_processing_mode p = "raw"%string ->
      _offset (fst (analyze p d)) = _offset p + len (scanned p d))
  /\ (_processing_mode p <> "raw"%string ->
      _offset (fst (analyze p d)) = _offset p).
Proof.
  destruct (analyze_fields p d)
    as (Hcfg & _ & _ & Hcur & Hidx & Hoff & Hlog).
  split; [exact Hcfg |]. split; [exact Hcur |]. split; [exact Hidx |].
  split; [exact Hlog |]. split.
  - intros Hraw. rewrite Hoff, Hraw. reflexivity.
  - intros Hraw. apply String.eqb_neq in Hraw. now rewrite Hoff, Hraw.
Qed.

Lemma format_match_mirrors (base : Z) (r : YaraMatch.t) :
  mirrors r (format_match base r).
Proof.
  unfold mirrors, format_match. simpl. rewrite !map_map.
  repeat split; apply map_ext; intros [[local identifier] matched];
    reflexivity.
Qed.

Lemma Forall2_mirrors_map (base : Z) (matches : list YaraMatch.t) :
  Forall2 mirrors matches (map (format_match base) matches).
Proof.
  induction matches as [| r matches IH]; simpl; constructor;
    [apply format_match_mirrors | exact IH].
Qed.

Lemma run_mirrors (calls : list call) (p q : Processor) :
  Forall2 mirrors (_raw_results p) (_formatted_results p) ->
  run p calls = Some q ->
  Forall2 mirrors (_raw_results q) (_formatted_results q).
Proof.
  apply (run_preserves
           (fun s => Forall2 mirrors (_raw_results s)
                             (_formatted_results s))).
  - intros s d Hs.
    destruct (analyze_fields s d) as (_ & Hraw & Hfmt & _).
    rewrite Hraw, Hfmt.
    apply Forall2_app; [exact Hs | apply Forall2_mirrors_map].
  - intros s c Hs.
    destruct (dispatch_chunk_fields s c) as (_ & Hraw & Hfmt & _).
    rewrite Hraw, Hfmt.
    apply Forall2_app; [exact Hs | apply Forall2_mirrors_map].
  - intros s v Hs. exact Hs.
  - intros s i Hs. exact Hs.
  - intros s _. constructor.
Qed.

(** Property X12.  Throughout every session the formatted list and the raw list
    stay in step: they have the same length, and the [k]-th formatted
    record carries the rule name of the [k]-th raw match, one hit per
    matched string with that string's identifier and its bytes in
    hexadecimal, and the tag "scan_result". *)
Theorem results_mirror_raw (w : World) (rule_files : list string)
    (mode : string) (compiled : bool) (kwargs : Kwargs)
    (calls : list call) (q : Processor) :
  session w rule_files mode compiled kwargs calls = Some q ->
  Forall2 mirrors (_raw_results q) (_formatted_results q)
  /\ length (_raw_results q) = length (_formatted_results q).
Proof.
  unfold session.
  destruct (__init__ w rule_files mode compiled kwargs) as [p |] eqn:Hp;
    [| discriminate].
  intros Hrun. apply init_state in Hp.
  destruct Hp as (_ & _ & _ & _ & _ & Hraw & Hfmt & _).
  assert (H : Forall2 mirrors (_raw_results q) (_formatted_results q)).
  { apply (run_mirrors calls p q); [| exact Hrun].
    rewrite Hraw, Hfmt. constructor. }
  split; [exact H |]. eapply Forall2_length. exact H.
Qed.

Lemma results_mirror_raw_witness :
  exists q : Processor,
    session (Fixture.world Fixture.dirty) ["./test.rule"%string] "raw"
            false Fixture.no_kwargs
            [SetData (Fixture.bytes_of "This is a dirty string.");
             Analyze None]
    = Some q
    /\ Forall2 mirrors (_raw_results q) (_formatted_results q)
    /\ length (_raw_results q) = length (_formatted_results q).
Proof.
  eexists. split; [vm_compute; reflexivity |].
  apply (results_mirror_raw (Fixture.world Fixture.dirty)
           ["./test.rule"%string] "raw" false Fixture.no_kwargs
           [SetData (Fixture.bytes_of "This is a dirty string.");
            Analyze None]).
  vm_compute. reflexivity.
Defined.

(** ** Sessions: what the offset, the window index and the buffer do *)

Lemma total_len_app (a b : list bytes) :
  total_len (a ++ b) = total_len a + total_len b.
Proof.
  induction a as [| x a IH]; simpl; [reflexivity |]. rewrite IH. lia.
Qed.

Lemma total_len_nonneg (a : list bytes) : 0 <= total_len a.
Proof.
  induction a as [| x a IH]; simpl; [lia |].
  pose proof (len_nonneg x). lia.
Qed.

Lemma set_data_raw (p : Processor) (value : bytes) :
  _processing_mode p = "raw"%string ->
  set_data p value = Some (with_current p value).
Proof. intros H. rewrite set_data_unfold, H. reflexivity. Qed.

Lemma run_raw (calls : list call) :
  forall p : Processor,
    _processing_mode p = "raw"%string ->
    exists q,
      run p calls = Some q
      /\ _processing_mode q = "raw"%string
      /\ _offset q - total_len (match_log q)
         = _offset p - total_len (match_log p)
      /\ length (match_log q)
         = (length (match_log p) + length (filter is_analyze calls))%nat
      /\ _window_index q = _window_index p.
Proof.
  induction calls as [| c calls IH]; intros p Hmode.
  - exists p. simpl. repeat split; auto; lia.
  - assert (Hc : exists p',
               step_call p c = Some p'
               /\ _processing_mode p' = "raw"%string
               /\ _offset p' - total_len (match_log p')
                  = _offset p - total_len (match_log p)
               /\ length (match_log p')
                  = (length (match_log p)
                     + if is_analyze c then 1 else 0)%nat
               /\ _window_index p' = _window_index p).
    { destruct c; cbn [step_call is_analyze]; unfold append.
      - rewrite set_data_raw by assumption. eexists.
        split; [reflexivity |]. simpl. repeat split; auto; lia.
      - rewrite set_data_raw by assumption. eexists.
        split; [reflexivity |]. simpl. repeat split; auto; lia.
      - eexists. split; [reflexivity |].
        destruct (analyze_fields p data0)
          as (Hcfg & _ & _ & _ & Hidx & Hoff & Hlog).
        destruct Hcfg as (_ & _ & _ & Hm & _).
        rewrite Hmode, String.eqb_refl in Hoff.
        rewrite Hlog, Hoff, total_len_app, length_app.
        cbn [total_len fold_right length].
        repeat split; try congruence; lia.
      - eexists. split; [reflexivity |]. simpl. repeat split; auto; lia. }
    destruct Hc as (p' & Hstep & Hm' & Hoff' & Hlen' & Hidx').
    destruct (IH p' Hm') as (q & Hrun & Hm & Hoff & Hlen & Hidx).
    exists q. simpl. rewrite Hstep.
    split; [exact Hrun |]. split; [exact Hm |].
    split; [lia |]. split; [| lia].
    rewrite Hlen, Hlen'. destruct (is_analyze c); simpl; lia.
Qed.

(** Property X13.  In raw mode every session returns; assignments to [data] never
    reach the matcher, which is called once per [analyze]; and the offset
    is the total number of bytes that [analyze] has scanned so far, so
    scanning the same buffer again counts it again. *)
Theorem raw_mode_accounting (w : World) (rule_files : list string)
    (compiled : bool) (kwargs : Kwargs) (calls : list call)
    (p : Processor) :
  __init__ w rule_files "raw" compiled kwargs = Ok p ->
  exists q,
    run p calls = Some q
    /\ _offset q = total_len (match_log q)
    /\ length (match_log q) = length (filter is_analyze calls)
    /\ _window_index q = 0.
Proof.
  intros Hp. apply init_state in Hp.
  destruct Hp as (_ & Hmode & Hoff & Hidx & _ & _ & _ & Hlog & _).
  destruct (run_raw calls p Hmode) as (q & Hrun & _ & Ho & Hl & Hi).
  exists q. rewrite Hlog, Hoff in *. simpl in *.
  split; [exact Hrun |]. split; [lia |]. split; [exact Hl | congruence].
Qed.

Lemma raw_mode_accounting_witness :
  exists q,
    run (Fixture.fresh Fixture.dirty "raw" 1024 1)
        [SetData (Fixture.bytes_of "This is a dirty string.");
         Analyze None; Analyze None]
    = Some q
    /\ _offset q = total_len (match_log q)
    /\ length (match_log q)
       = length (filter is_analyze
                   [SetData (Fixture.bytes_of "This is a dirty string.");
                    Analyze None; Analyze None])
    /\ _window_index q = 0.
Proof.
  apply (raw_mode_accounting (Fixture.world Fixture.dirty) []
           false Fixture.no_kwargs).
  vm_compute. reflexivity.
Defined.

Lemma py_slice_open_len {A : Type} (l : list A) (i : Z) :
  len (py_slice l i None) = len l - slice_bound (len l) i.
Proof.
  unfold py_slice.
  pose proof (slice_bound_range (len l) i (len_nonneg l)) as Hi.
  unfold len in *. rewrite length_firstn, length_skipn. lia.
Qed.

Lemma set_data_window_index (p q : Processor) (value : bytes) :
  1 <= _buffer_size p ->
  set_data p value = Some q ->
  _window_index p <= _window_index q.
Proof.
  intros Hsize. rewrite set_data_unfold.
  destruct (_processing_mode p =? "raw")%string;
    [intros [= <-]; simpl; lia |]. cbv zeta.
  destruct (truthy value && _) eqn:Hgo; [| intros [= <-]; simpl; lia].
  destruct (_window _ _ _) as [chunks |]; [| discriminate].
  intros [= <-]. cbn [_window_index with_window_index].
  apply andb_true_iff in Hgo. destruct Hgo as (_ & Hfull).
  apply Z.leb_le in Hfull. rewrite py_slice_open_len in Hfull.
  unfold slice_bound in Hfull. pose proof (len_nonneg value).
  destruct (Z.ltb_spec (_window_index p) 0); lia.
Qed.

(** Property X14.  With a buffer size of at least 1 the window index never goes
    back, whatever the calls: it stays put or jumps to the end of the
    buffer. *)
Theorem window_index_never_decreases (calls : list call) :
  forall p q : Processor,
    1 <= _buffer_size p ->
    run p calls = Some q ->
    _window_index p <= _window_index q.
Proof.
  induction calls as [| c calls IH]; intros p q Hsize; cbn [run].
  - intros [= <-]. lia.
  - destruct (step_call p c) as [p' |] eqn:Hc; [| discriminate].
    intros Hrun.
    assert (Hstep : _window_index p <= _window_index p'
                    /\ _buffer_size p' = _buffer_size p).
    { destruct c; cbn [step_call] in Hc; unfold append in Hc.
      - split; [eapply set_data_window_index; eassumption |].
        apply set_data_frame in Hc. apply Hc.
      - split; [eapply set_data_window_index; eassumption |].
        apply set_data_frame in Hc. apply Hc.
      - assert (Hp' : p' = fst (analyze p data0)) by congruence.
        destruct (analyze_fields p data0) as (Hcfg & _ & _ & _ & Hidx & _).
        rewrite Hp'. split; [lia | apply Hcfg].
      - injection Hc as <-. split; [simpl; lia | reflexivity]. }
    destruct Hstep as (Hle & Hsame).
    specialize (IH p' q). rewrite Hsame in IH. specialize (IH Hsize Hrun).
    lia.
Qed.

Lemma window_index_never_decreases_witness :
  1 <= _buffer_size (Fixture.fresh Fixture.whole "sliding_window" 5 2)
  /\ exists q,
       run (Fixture.fresh Fixture.whole "sliding_window" 5 2)
           [Append (Fixture.bytes_of "123456789")] = Some q
       /\ _window_index (Fixture.fresh Fixture.whole "sliding_window" 5 2)
          <= _window_index q.
Proof.
  assert (H : 1 <= _buffer_size
                     (Fixture.fresh Fixture.whole "sliding_window" 5 2))
    by (simpl; lia).
  split; [exact H |]. eexists. split; [vm_compute; reflexivity |].
  apply (window_index_never_decreases
           [Append (Fixture.bytes_of "123456789")] _ _ H).
  vm_compute. reflexivity.
Defined.

(** Property X15.  With a window step that is not negative the offset never goes
    back, whatever the mode and the calls. *)
Theorem offset_never_decreases (calls : list call) (p q : Processor) :
  0 <= _window_step p ->
  run p calls = Some q ->
  _offset p <= _offset q.
Proof.
  intros Hstep Hrun.
  apply (run_preserves
           (fun s => _offset p <= _offset s /\ 0 <= _window_step s))
    with (calls := calls) (p := p); auto; try lia.
  - intros s d (Ho & Hs).
    destruct (analyze_fields s d) as (Hcfg & _ & _ & _ & _ & Hoff & _).
    destruct Hcfg as (_ & _ & _ & _ & _ & -> & _).
    split; [| exact Hs]. rewrite Hoff.
    pose proof (len_nonneg (scanned s d)).
    destruct (_processing_mode s =? "raw")%string; lia.
  - intros s c (Ho & Hs).
    destruct (dispatch_chunk_fields s c)
      as (Hcfg & _ & _ & _ & _ & Hoff & _).
    destruct (analyze_fields s (Some c)) as (_ & _ & _ & _ & _ & Hoff' & _).
    destruct Hcfg as (_ & _ & _ & _ & _ & -> & _).
    split; [| exact Hs]. rewrite Hoff, Hoff'. unfold chunk_advance.
    pose proof (len_nonneg (scanned s (Some c))).
    pose proof (len_nonneg c).
    destruct (_processing_mode s =? "raw")%string,
             (_processing_mode s =? "fixed_buffer")%string,
             (_processing_mode s =? "sliding_window")%string; lia.
Qed.

Lemma offset_never_decreases_witness :
  0 <= _window_step (Fixture.fresh Fixture.whole "sliding_window" 5 2)
  /\ exists q,
       run (Fixture.fresh Fixture.whole "sliding_window" 5 2)
           [Append (Fixture.bytes_of "123456789")] = Some q
       /\ _offset (Fixture.fresh Fixture.whole "sliding_window" 5 2)
          <= _offset q.
Proof.
  assert (H : 0 <= _window_step
                     (Fixture.fresh Fixture.whole "sliding_window" 5 2))
    by (simpl; lia).
  split; [exact H |]. eexists. split; [vm_compute; reflexivity |].
  apply (offset_never_decreases
           [Append (Fixture.bytes_of "123456789")] _ _ H).
  vm_compute. reflexivity.
Defined.

Lemma run_appends_data (chunks : list bytes) :
  forall p q : Processor,
    run p (map Append chunks) = Some q ->
    data q = data p ++ concat chunks.
Proof.
  induction chunks as [| c chunks IH]; intros p q; simpl.
  - intros [= <-]. now rewrite app_nil_r.
  - destruct (append p c) as [p' |] eqn:Hc; [| discriminate].
    intros Hrun. rewrite (IH p' q Hrun).
    unfold append in Hc. apply set_data_frame in Hc.
    destruct Hc as (_ & Hcur & _). unfold data in *.
    now rewrite Hcur, app_assoc.
Qed.

(** Property X16.  The buffer is never cut: after a run of appends the [data]
    property holds the old buffer followed by everything appended,
    whatever was handed to the matcher in between. *)
Theorem appends_accumulate (chunks : list bytes) (p q : Processor) :
  run p (map Append chunks) = Some q ->
  data q = data p ++ concat chunks.
Proof. apply run_appends_data. Qed.

Lemma appends_accumulate_witness :
  exists q,
    run (Fixture.fresh Fixture.whole "fixed_buffer" 5 5)
        (map Append [Fixture.bytes_of "1234567"; Fixture.bytes_of "89"])
    = Some q
    /\ data q
       = data (Fixture.fresh Fixture.whole "fixed_buffer" 5 5)
           ++ concat [Fixture.bytes_of "1234567"; Fixture.bytes_of "89"].
Proof.
  eexists. split; [vm_compute; reflexivity |].
  apply (appends_accumulate
           [Fixture.bytes_of "1234567"; Fixture.bytes_of "89"]).
  vm_compute. reflexivity.
Defined.

(** ** fixed_buffer mode fed by appends *)

Lemma positional_records_app (rules : Rules) (l1 l2 : list bytes) :
  forall base,
    positional_records rules base (l1 ++ l2)
    = positional_records rules base l1
        ++ positional_records rules (base + total_len l1) l2.
Proof.
  induction l1 as [| b l1 IH]; intros base; simpl.
  - now rewrite Z.add_0_r.
  - rewrite IH, <- app_assoc. do 3 f_equal. lia.
Qed.

Lemma total_len_concat (l : list bytes) : total_len l = len (concat l).
Proof.
  induction l as [| b l IH]; simpl; [reflexivity |].
  now rewrite len_app, IH.
Qed.

Lemma chunk_records_fixed (p : Processor) (chunks : list bytes) :
  _processing_mode p = "fixed_buffer"%string ->
  (forall c, In c chunks -> c <> []) ->
  forall base,
    chunk_records p base chunks
    = positional_records (_rules p) base chunks.
Proof.
  intros Hmode. induction chunks as [| c chunks IH]; intros Hne base;
    cbn [chunk_records positional_records]; [reflexivity |].
  rewrite IH by (intros c' Hc'; apply Hne; now right).
  unfold dispatch_advance, chunk_advance.
  rewrite scanned_nonempty by (apply Hne; now left).
  rewrite Hmode. reflexivity.
Qed.

Lemma firstn_app_short {A : Type} (n : nat) (l1 l2 : list A) :
  (n <= length l1)%nat -> firstn n (l1 ++ l2) = firstn n l1.
Proof.
  intros H. rewrite firstn_app.
  replace (n - length l1)%nat with 0%nat by lia.
  simpl. apply app_nil_r.
Qed.

(** An append keeps [fixed_stream], and returns. *)
Lemma append_keeps_fixed_stream (p : Processor) (more : bytes) :
  fixed_stream p ->
  exists q, append p more = Some q /\ fixed_stream q.
Proof.
  intros (Hmode & Hstep & Hsize & Hidx & Hlog & Hoff & Hfmt & Hwait).
  unfold append, data. set (value := _current p ++ more).
  assert (Hlen : len value = len (_current p) + len more)
    by apply len_app.
  pose proof (len_nonneg more) as Hmore.
  assert (Hprefix : firstn (Z.to_nat (_window_index p)) value
                    = firstn (Z.to_nat (_window_index p)) (_current p)).
  { apply firstn_app_short. unfold len in Hidx. lia. }
  assert (Hpending : py_slice value (_window_index p) None
                     = skipn (Z.to_nat (_window_index p)) value)
    by (apply py_slice_from; lia).
  rewrite set_data_unfold, Hmode. cbv zeta.
  change ("fixed_buffer" =? "raw")%string with false. cbv iota.
  destruct (truthy value
            && (_buffer_size p
                <=? len (py_slice value (_window_index p) None)))
    eqn:Hgo.
  - rewrite Hstep.
    destruct (window_spec (py_slice value (_window_index p) None)
                (_buffer_size p) (_buffer_size p) Hsize Hsize)
      as (n & Hret & _).
    rewrite Hret.
    set (chunks := map (window_slice
                          (py_slice value (_window_index p) None)
                          (_buffer_size p) (_buffer_size p)) (seq 0 n))
      in *.
    assert (Hparts : concat chunks
                     = skipn (Z.to_nat (_window_index p)) value).
    { rewrite <- Hpending.
      rewrite (window_loop_partition _ _ Hsize _ 0 chunks (Z.le_refl 0)
                                     Hret).
      reflexivity. }
    assert (Hne : forall c, In c chunks -> c <> [])
      by (eapply window_loop_nonempty; exact Hret).
    destruct (fold_dispatch_frame chunks (with_current p value))
      as (Hcfg & Hcur & _ & Hlog').
    rewrite map_scanned_nonempty in Hlog' by exact Hne.
    pose proof (fold_dispatch_offset_fixed chunks (with_current p value)
                                           Hmode) as Hoff'.
    pose proof (fold_dispatch_results chunks (with_current p value))
      as Hfmt'.
    rewrite (chunk_records_fixed (with_current p value) chunks Hmode Hne)
      in Hfmt'.
    destruct Hcfg as (_ & Hrules & _ & Hmode' & Hsize' & Hstep' & _).
    simpl in Hcur, Hlog', Hoff', Hfmt', Hrules, Hmode', Hsize', Hstep'.
    assert (Htotal : total_len chunks = len value - _window_index p).
    { rewrite total_len_concat, Hparts. unfold len.
      rewrite length_skipn. unfold len in Hlen, Hidx. lia. }
    assert (Hseen : total_len (match_log p) = _window_index p).
    { rewrite total_len_concat, Hlog. unfold len.
      rewrite length_firstn. unfold len in Hidx. lia. }
    eexists. split; [reflexivity |].
    unfold fixed_stream.
    cbn [_processing_mode _window_step _buffer_size _window_index
         _current match_log _offset _formatted_results _rules
         with_window_index].
    rewrite Hmode', Hsize', Hstep', Hcur, Hlog', Hoff', Hfmt', Hrules.
    split; [exact Hmode |]. split; [exact Hstep |]. split; [exact Hsize |].
    split; [lia |]. split; [| split; [lia | split; [| lia]]].
    + rewrite concat_app, Hlog, Hparts, <- Hprefix, firstn_skipn.
      symmetry. apply firstn_all2. unfold len. lia.
    + rewrite Hfmt, positional_records_app.
      do 2 f_equal. lia.
  - eexists. split; [reflexivity |].
    unfold fixed_stream. simpl.
    split; [exact Hmode |]. split; [exact Hstep |]. split; [exact Hsize |].
    split; [lia |]. split; [now rewrite Hprefix |].
    split; [exact Hoff |]. split; [exact Hfmt |].
    apply andb_false_iff in Hgo. destruct Hgo as [Hempty | Hshort].
    + apply truthy_false_iff in Hempty. rewrite Hempty. simpl. lia.
    + apply Z.leb_gt in Hshort.
      rewrite py_slice_from_len in Hshort by lia. lia.
Qed.

Lemma appends_keep_fixed_stream (chunks : list bytes) :
  forall p : Processor,
    fixed_stream p ->
    exists q, run p (map Append chunks) = Some q /\ fixed_stream q.
Proof.
  induction chunks as [| c chunks IH]; intros p Hp; simpl.
  - eauto.
  - destruct (append_keeps_fixed_stream p c Hp) as (p' & -> & Hp').
    apply IH, Hp'.
Qed.

Lemma init_fixed_stream (w : World) (rule_files : list string)
    (compiled : bool) (kwargs : Kwargs) (p : Processor) :
  __init__ w rule_files "fixed_buffer" compiled kwargs = Ok p ->
  1 <= kwargs_get (buffer_size kwargs) 1024 ->
  fixed_stream p.
Proof.
  intros Hp Hsize. apply init_state in Hp.
  destruct Hp
    as (_ & Hmode & Hoff & Hidx & Hcur & _ & Hfmt & Hlog & Hsz & Hst).
  unfold fixed_stream.
  rewrite Hmode, Hoff, Hidx, Hcur, Hfmt, Hlog, Hsz, Hst.
  set (size := kwargs_get (buffer_size kwargs) 1024) in *. simpl.
  change (len (@nil ascii)) with 0.
  repeat split; lia.
Qed.

(** Property X17.  A fixed_buffer Processor with a buffer size of at least 1 that
    is fed by appends alone always returns, and scans the stream once and
    in order: the buffers handed to the matcher, put end to end, are the
    stream up to the window index; the offset equals that index; and
    fewer than [_buffer_size] bytes are left waiting. *)
Theorem fixed_buffer_scans_stream_in_order (w : World)
    (rule_files : list string) (compiled : bool) (kwargs : Kwargs)
    (chunks : list bytes) (p : Processor) :
  __init__ w rule_files "fixed_buffer" compiled kwargs = Ok p ->
  1 <= kwargs_get (buffer_size kwargs) 1024 ->
  exists q,
    run p (map Append chunks) = Some q
    /\ data q = concat chunks
    /\ concat (match_log q)
       = firstn (Z.to_nat (_window_index q)) (concat chunks)
    /\ _offset q = _window_index q
    /\ 0 <= len (concat chunks) - _window_index q < _buffer_size q.
Proof.
  intros Hp Hsize.
  pose proof (init_fixed_stream _ _ _ _ _ Hp Hsize) as Hinv.
  destruct (appends_keep_fixed_stream chunks p Hinv) as (q & Hrun & Hq).
  pose proof (run_appends_data chunks p q Hrun) as Hdata.
  apply init_state in Hp. destruct Hp as (_ & _ & _ & _ & Hcur & _).
  unfold data in Hdata. rewrite Hcur in Hdata. simpl in Hdata.
  destruct Hq as (_ & _ & _ & Hidx & Hlog & Hoff & _ & Hwait).
  rewrite Hdata in *.
  exists q. split; [exact Hrun |]. split; [exact Hdata |].
  split; [exact Hlog |]. split; [exact Hoff |]. lia.
Qed.

Lemma fixed_buffer_scans_stream_in_order_witness :
  exists q,
    run (Fixture.fresh Fixture.whole "fixed_buffer" 5 5)
        (map Append [Fixture.bytes_of "1234567"; Fixture.bytes_of "89";
                     Fixture.bytes_of "0"])
    = Some q
    /\ data q
       = concat [Fixture.bytes_of "1234567"; Fixture.bytes_of "89";
                 Fixture.bytes_of "0"]
    /\ concat (match_log q)
       = firstn (Z.to_nat (_window_index q))
                (concat [Fixture.bytes_of "1234567"; Fixture.bytes_of "89";
                         Fixture.bytes_of "0"])
    /\ _offset q = _window_index q
    /\ 0 <= len (concat [Fixture.bytes_of "1234567";
                         Fixture.bytes_of "89"; Fixture.bytes_of "0"])
            - _window_index q
       < _buffer_size q.
Proof.
  apply (fixed_buffer_scans_stream_in_order (Fixture.world Fixture.whole)
           [] false (Fixture.kwargs 5 1)).
  - vm_compute. reflexivity.
  - vm_compute. discriminate.
Defined.

(** Property X18.  In the same setting every record is reported at its place in
    the stream: the records are those of the buffers handed to the
    matcher, each counted from the number of bytes handed over before
    it, and those buffers are consecutive pieces of the stream from its
    start. *)
Theorem fixed_buffer_records_at_stream_positions (w : World)
    (rule_files : list string) (compiled : bool) (kwargs : Kwargs)
    (chunks : list bytes) (p q : Processor) :
  __init__ w rule_files "fixed_buffer" compiled kwargs = Ok p ->
  1 <= kwargs_get (buffer_size kwargs) 1024 ->
  run p (map Append chunks) = Some q ->
  results q = positional_records (_rules q) 0 (match_log q)
  /\ concat (match_log q)
     = firstn (Z.to_nat (_window_index q)) (concat chunks).
Proof.
  intros Hp Hsize Hrun.
  pose proof (init_fixed_stream _ _ _ _ _ Hp Hsize) as Hinv.
  destruct (appends_keep_fixed_stream chunks p Hinv) as (q' & Hrun' & Hq).
  assert (q' = q) by congruence. subst q'.
  pose proof (run_appends_data chunks p q Hrun) as Hdata.
  apply init_state in Hp. destruct Hp as (_ & _ & _ & _ & Hcur & _).
  unfold data in Hdata. rewrite Hcur in Hdata. simpl in Hdata.
  destruct Hq as (_ & _ & _ & _ & Hlog & _ & Hfmt & _).
  rewrite Hdata in Hlog. split; assumption.
Qed.

Lemma fixed_buffer_records_at_stream_positions_witness :
  exists q,
    run (Fixture.fresh Fixture.whole "fixed_buffer" 5 5)
        (map Append [Fixture.bytes_of "1234567"; Fixture.bytes_of "89";
                     Fixture.bytes_of "0"])
    = Some q
    /\ results q = positional_records (_rules q) 0 (match_log q)
    /\ concat (match_log q)
       = firstn (Z.to_nat (_window_index q))
                (concat [Fixture.bytes_of "1234567"; Fixture.bytes_of "89";
                         Fixture.bytes_of "0"]).
Proof.
  eexists. split; [vm_compute; reflexivity |].
  apply (fixed_buffer_records_at_stream_positions
           (Fixture.world Fixture.whole) [] false (Fixture.kwargs 5 1)
           [Fixture.bytes_of "1234567"; Fixture.bytes_of "89";
            Fixture.bytes_of "0"]
           (Fixture.fresh Fixture.whole "fixed_buffer" 5 5)).
  - vm_compute. reflexivity.
  - vm_compute. discriminate.
  - vm_compute. reflexivity.
Defined.

(** ** sliding_window mode: one pass of the setter *)

Lemma fold_dispatch_offset_sliding (chunks : list bytes) :
  forall p : Processor,
    _processing_mode p = "sliding_window"%string ->
    _offset (fold_left dispatch_chunk chunks p)
    = _offset p + Z.of_nat (length chunks) * _window_step p.
Proof.
  induction chunks as [| c chunks IH]; intros p Hmode;
    cbn [fold_left length]; [lia |].
  destruct (dispatch_chunk_fields p c)
    as (Hcfg & _ & _ & _ & _ & Hoff & _).
  destruct (analyze_fields p (Some c)) as (_ & _ & _ & _ & _ & Hoff' & _).
  destruct Hcfg as (_ & _ & _ & Hm & _ & Hs & _).
  rewrite IH by congruence.
  rewrite Hs, Hoff, Hoff'. unfold chunk_advance. rewrite Hmode.
  change ("sliding_window" =? "raw")%string with false.
  change ("sliding_window" =? "fixed_buffer")%string with false.
  rewrite String.eqb_refl. lia.
Qed.

Lemma chunk_records_sliding (p : Processor) (f : nat -> bytes) (n : nat) :
  _processing_mode p = "sliding_window"%string ->
  forall (a : nat) (base : Z),
    (forall k, In k (seq a n) -> f k <> []) ->
    chunk_records p base (map f (seq a n))
    = concat (map (fun k =>
                     map (format_match
                            (base + (Z.of_nat k - Z.of_nat a)
                                    * _window_step p))
                         (_rules p (f k)))
                  (seq a n)).
Proof.
  intros Hmode. induction n as [| n IH]; intros a base Hne;
    cbn [seq map chunk_records concat]; [reflexivity |].
  rewrite IH by (intros k Hk; apply Hne; now right).
  unfold dispatch_advance, chunk_advance.
  rewrite scanned_nonempty by (apply Hne; now left).
  rewrite Hmode.
  change ("sliding_window" =? "raw")%string with false.
  change ("sliding_window" =? "fixed_buffer")%string with false.
  rewrite String.eqb_refl.
  f_equal.
  - do 2 f_equal. lia.
  - f_equal. apply map_ext. intros k. do 2 f_equal. lia.
Qed.

(** Property X19.  One pass in sliding_window mode.  With a size and step of at
    least 1, an assignment that leaves at least [_buffer_size] pending
    bytes hands the matcher the [n = ceil(pending / step)] windows of the
    pending bytes, reports the records of the [k]-th window from the
    offset at the start of the pass plus [k * step], and ends with the
    offset moved by [n * step], which is never less than the number of
    pending bytes. *)
Theorem sliding_window_pass (p : Processor) (value : bytes) :
  _processing_mode p = "sliding_window"%string ->
  value <> [] ->
  1 <= _buffer_size p <= len (py_slice value (_window_index p) None) ->
  1 <= _window_step p ->
  exists (n : nat) (q : Processor),
    set_data p value = Some q
    /\ Z.of_nat n
       = ceil_div (len (py_slice value (_window_index p) None))
                  (_window_step p)
    /\ match_log q
       = match_log p
           ++ map (window_slice (py_slice value (_window_index p) None)
                                (_buffer_size p) (_window_step p))
                  (seq 0 n)
    /\ results q
       = results p
           ++ concat
                (map (fun k =>
                        map (format_match
                               (_offset p + Z.of_nat k * _window_step p))
                            (_rules p
                               (window_slice
                                  (py_slice value (_window_index p) None)
                                  (_buffer_size p) (_window_step p) k)))
                     (seq 0 n))
    /\ _offset q = _offset p + Z.of_nat n * _window_step p
    /\ _offset p + len (py_slice value (_window_index p) None)
       <= _offset q.
Proof.
  intros Hmode Hvalue [Hsize Hfull] Hstep.
  set (pending := py_slice value (_window_index p) None) in *.
  destruct (window_spec pending (_buffer_size p) (_window_step p)
                        Hsize Hstep) as (n & Hret & Hbefore & Hstop).
  set (chunks := map (window_slice pending (_buffer_size p)
                                   (_window_step p)) (seq 0 n)) in *.
  assert (Hne : forall c, In c chunks -> c <> [])
    by (eapply window_loop_nonempty; exact Hret).
  assert (Hnek : forall k, In k (seq 0 n) ->
                           window_slice pending (_buffer_size p)
                                        (_window_step p) k <> []).
  { intros k Hk. apply Hne. unfold chunks. now apply in_map. }
  exists n. eexists.
  rewrite set_data_unfold, Hmode.
  change ("sliding_window" =? "raw")%string with false.
  cbv zeta iota. fold pending.
  apply truthy_true_iff in Hvalue. rewrite Hvalue.
  apply Z.leb_le in Hfull. rewrite Hfull. cbn [andb].
  rewrite Hret. split; [reflexivity |].
  destruct (fold_dispatch_frame chunks (with_current p value))
    as (_ & _ & _ & Hlog).
  rewrite map_scanned_nonempty in Hlog by exact Hne.
  pose proof (fold_dispatch_offset_sliding chunks (with_current p value)
                                           Hmode) as Hoff.
  pose proof (fold_dispatch_results chunks (with_current p value)) as Hfmt.
  unfold chunks in Hfmt at 2.
  rewrite (chunk_records_sliding (with_current p value) _ n Hmode 0
                                 _ Hnek) in Hfmt.
  unfold chunks in Hoff at 2. rewrite length_map, length_seq in Hoff.
  cbn [_offset _window_step _formatted_results _rules match_log
       with_current] in Hlog, Hoff, Hfmt.
  unfold results.
  cbn [_offset _formatted_results match_log with_window_index].
  fold chunks. rewrite Hlog, Hoff, Hfmt.
  split; [apply window_count; auto; apply len_nonneg |].
  split; [reflexivity |]. split; [| split; [reflexivity | lia]].
  do 2 f_equal. apply map_ext. intros k. do 2 f_equal. simpl. lia.
Qed.

Lemma sliding_window_pass_witness :
  exists (n : nat) (q : Processor),
    set_data (Fixture.fresh Fixture.whole "sliding_window" 5 2)
             (Fixture.bytes_of "123456789") = Some q
    /\ Z.of_nat n = ceil_div 9 2
    /\ _offset q = 0 + Z.of_nat n * 2.
Proof.
  destruct (sliding_window_pass
              (Fixture.fresh Fixture.whole "sliding_window" 5 2)
              (Fixture.bytes_of "123456789"))
    as (n & q & Hset & Hn & _ & _ & Hoff & _).
  - reflexivity.
  - discriminate.
  - vm_compute. split; discriminate.
  - vm_compute. discriminate.
  - exists n, q. split; [exact Hset |]. split; [exact Hn | exact Hoff].
Defined.

(** ** The setter: when it hangs, and appends below the buffer size *)

(** Property X20.  An assignment to [data] never returns in exactly one
    situation: the mode is not raw, the dispatch condition holds, the
    window step is 0 and the first window is not empty.  In particular a
    zero step with a buffer size of at least 1 hangs as soon as
    [_buffer_size] bytes are pending; with any other step the setter
    returns. *)
Theorem set_data_hangs_iff (p : Processor) (value : bytes) :
  (set_data p value = None
   <-> _processing_mode p <> "raw"%string
       /\ value <> []
       /\ _buffer_size p <= len (py_slice value (_window_index p) None)
       /\ _window_step p = 0
       /\ py_slice (py_slice value (_window_index p) None) 0
                   (Some (_buffer_size p)) <> [])
  /\ (_processing_mode p <> "raw"%string ->
      1 <= _buffer_size p <= len (py_slice value (_window_index p) None) ->
      _window_step p = 0 ->
      set_data p value = None).
Proof.
  assert (Hiff :
    set_data p value = None
    <-> _processing_mode p <> "raw"%string
        /\ value <> []
        /\ _buffer_size p <= len (py_slice value (_window_index p) None)
        /\ _window_step p = 0
        /\ py_slice (py_slice value (_window_index p) None) 0
                    (Some (_buffer_size p)) <> []).
  { rewrite set_data_unfold. cbv zeta.
    destruct (String.eqb_spec (_processing_mode p) "raw") as [Hraw | Hraw].
    { split; [discriminate | tauto]. }
    destruct (truthy value) eqn:Hvalue; cbn [andb].
    - apply truthy_true_iff in Hvalue.
      destruct (Z.leb_spec (_buffer_size p)
                  (len (py_slice value (_window_index p) None)))
        as [Hfull | Hshort].
      + destruct (_window _ _ _) as [chunks |] eqn:Hw.
        * split; [discriminate |]. intros (_ & _ & _ & Hstep & Hfirst).
          assert (Hnone : _window (py_slice value (_window_index p) None)
                                  (_buffer_size p) (_window_step p) = None)
            by (apply window_diverges_iff; auto).
          congruence.
        * apply window_diverges_iff in Hw. tauto.
      + split; [discriminate |]. intros (_ & _ & H & _). lia.
    - apply truthy_false_iff in Hvalue.
      split; [discriminate |]. intros (_ & H & _). contradiction. }
  split; [exact Hiff |].
  intros Hraw [Hsize Hfull] Hstep. apply Hiff.
  assert (Hfirst : py_slice (py_slice value (_window_index p) None) 0
                            (Some (_buffer_size p)) <> []).
  { intros Hempty.
    apply (window_empty_iff _ 0 (_buffer_size p)) in Hempty; lia. }
  repeat split; auto; try lia.
  intros ->. unfold py_slice in Hfull. rewrite skipn_nil, firstn_nil in Hfull.
  change (len (@nil ascii)) with 0 in Hfull. lia.
Qed.

Lemma set_data_with_current (p : Processor) (x value : bytes) :
  set_data (with_current p x) value = set_data p value.
Proof. reflexivity. Qed.

(** Property X21.  Appends that stay below the buffer size are only buffered: if
    after appending [a] fewer than [_buffer_size] bytes are pending, the
    matcher is not called, the offset and the window index stay, and
    appending [b] next does what appending [a ++ b] at once would have
    done. *)
Theorem small_appends_merge (p : Processor) (a b : bytes) :
  len (py_slice (data p ++ a) (_window_index p) None) < _buffer_size p ->
  exists p1,
    append p a = Some p1
    /\ match_log p1 = match_log p
    /\ _offset p1 = _offset p
    /\ _window_index p1 = _window_index p
    /\ append p1 b = append p (a ++ b).
Proof.
  intros Hshort. exists (with_current p (data p ++ a)).
  split.
  - unfold append. rewrite set_data_unfold. cbv zeta.
    apply Z.leb_gt in Hshort. rewrite Hshort, andb_false_r.
    destruct (_processing_mode p =? "raw")%string; reflexivity.
  - split; [reflexivity |]. split; [reflexivity |].
    split; [reflexivity |].
    unfold append, data. cbn [_current with_current].
    rewrite set_data_with_current, app_assoc. reflexivity.
Qed.

Lemma small_appends_merge_witness :
  exists p1,
    append (Fixture.fresh Fixture.whole "fixed_buffer" 5 5)
           (Fixture.bytes_of "123") = Some p1
    /\ match_log p1 = []
    /\ _offset p1 = 0
    /\ _window_index p1 = 0
    /\ append p1 (Fixture.bytes_of "45")
       = append (Fixture.fresh Fixture.whole "fixed_buffer" 5 5)
                (Fixture.bytes_of "123" ++ Fixture.bytes_of "45").
Proof.
  apply (small_appends_merge
           (Fixture.fresh Fixture.whole "fixed_buffer" 5 5)
           (Fixture.bytes_of "123") (Fixture.bytes_of "45")).
  vm_compute. reflexivity.
Defined.

(** ** __str__ *)

Lemma init_rule_files (w : World) (rule_files : list string)
    (mode : string) (compiled : bool) (kwargs : Kwargs) (p : Processor) :
  __init__ w rule_files mode compiled kwargs = Ok p ->
  if compiled
  then exists f, rule_files = [f] /\ _rule_files p = CompiledFile f
  else _rule_files p = Namespaces (_prepare_rules rule_files).
Proof.
  unfold __init__.
  destruct (validate_rule_files w rule_files); [| discriminate].
  destruct (load_rules w rule_files compiled) as [[files rules] |] eqn:Hl;
    [| discriminate].
  destruct (str_in (lower mode) allowed_modes); cbn [negb];
    [| discriminate].
  intros [= <-]. cbn [_rule_files].
  unfold load_rules in Hl. destruct compiled; cbn [negb] in Hl.
  - destruct rule_files as [| f [| g rest]]; try discriminate.
    destruct (yara_load w f); try discriminate.
    injection Hl as <- _. eauto.
  - destruct (yara_compile w (_prepare_rules rule_files));
      try discriminate.
    now injection Hl as <- _.
Qed.

(** Property X22.  [str(p)] fails for every Processor built from compiled rules:
    its [_rule_files] is the path, a string, which has no [values]
    method, so [__str__] raises AttributeError.  Built from one rule
    source it names that file, and from none it is just the class and
    module name. *)
Theorem str_of_processor (w : World) (mode : string) (kwargs : Kwargs)
    (name : string) :
  (forall rule_files p,
      __init__ w rule_files mode true kwargs = Ok p ->
      ~ In EmptyString rule_files ->
      exists message, __str__ name p = AttributeError message)
  /\ (forall f p,
         __init__ w [f] mode false kwargs = Ok p ->
         __str__ name p
         = Str (("Processor " ++ name) ++ " running with rules " ++ f))
  /\ (forall p,
         __init__ w [] mode false kwargs = Ok p ->
         __str__ name p = Str ("Processor " ++ name)).
Proof.
  split; [| split].
  - intros rule_files p Hp Hnonempty.
    apply init_rule_files in Hp. destruct Hp as (f & -> & Hfiles).
    unfold __str__. rewrite Hfiles. destruct f as [| c f].
    + exfalso. apply Hnonempty. now left.
    + eauto.
  - intros f p Hp. apply init_rule_files in Hp.
    unfold __str__. rewrite Hp. reflexivity.
  - intros p Hp. apply init_rule_files in Hp.
    unfold __str__. rewrite Hp. reflexivity.
Qed.

(** ** The command line *)

(** Property X23.  Run in raw mode, the script scans the whole input in one call
    of the matcher and logs the matches of that call with the offsets
    the matcher gave, which are offsets into the input file. *)
Theorem main_raw_scans_whole_input (w : World) (args : Args)
    (p0 : Processor) :
  args_mode args = ModeRaw ->
  __init__ w (args_rules args) "raw" (args_compiled args)
           {| buffer_size := None; window_step := None |} = Ok p0 ->
  exists p,
    main w args = Returned p
    /\ match_log p = [args_input args]
    /\ results p = map (format_match 0) (_rules p0 (args_input args))
    /\ _offset p = len (args_input args).
Proof.
  intros Hmode Hp0. unfold main. rewrite Hmode. cbn [mode_name].
  rewrite String.eqb_refl. cbn [negb]. rewrite Hp0.
  apply init_state in Hp0.
  destruct Hp0 as (_ & Hm & Hoff & _ & Hcur & _ & Hfmt & Hlog & _).
  unfold append, data. rewrite Hcur, app_nil_l.
  rewrite set_data_raw by exact Hm.
  eexists. split; [reflexivity |].
  destruct (analyze_fields (with_current p0 (args_input args)) None)
    as (_ & _ & Hf & _ & _ & Ho & Hl).
  cbn [scanned _current with_current _formatted_results _offset _rules
       match_log _processing_mode] in Hf, Ho, Hl.
  unfold results. rewrite Hf, Ho, Hl, Hfmt, Hoff, Hlog, Hm.
  rewrite String.eqb_refl. repeat split.
Qed.

Lemma main_raw_scans_whole_input_witness :
  exists p,
    main (Fixture.world Fixture.dirty)
         {| args_mode := ModeRaw;
            args_input := Fixture.bytes_of "This is a dirty string.";
            args_rules := ["./test.rule"%string];
            args_compiled := false;
            args_size := 5;
            args_step := 1 |}
    = Returned p
    /\ match_log p = [Fixture.bytes_of "This is a dirty string."]
    /\ results p
       = map (format_match 0)
             (Fixture.dirty (Fixture.bytes_of "This is a dirty string."))
    /\ _offset p = len (Fixture.bytes_of "This is a dirty string.").
Proof.
  apply (main_raw_scans_whole_input (Fixture.world Fixture.dirty)
           {| args_mode := ModeRaw;
              args_input := Fixture.bytes_of "This is a dirty string.";
              args_rules := ["./test.rule"%string];
              args_compiled := false;
              args_size := 5;
              args_step := 1 |}
           (mkProcessor
              (Namespaces [("RuleFile0", "./test.rule")]%string)
              Fixture.dirty allowed_modes "raw" 1024 1
              [] [] [] None 0 0 [])).
  - reflexivity.
  - vm_compute. reflexivity.
Defined.

(** Property X24.  Run in fixed_buffer or sliding_window mode on an input shorter
    than [--size], the script never calls the matcher and logs nothing,
    whatever the rules: the input is buffered and the script ends. *)
Theorem main_short_input_is_not_scanned (w : World) (args : Args)
    (p0 : Processor) :
  args_mode args <> ModeRaw ->
  len (args_input args) < args_size args ->
  __init__ w (args_rules args) (mode_name (args_mode args))
           (args_compiled args)
           {| buffer_size := Some (args_size args);
              window_step := Some (args_step args) |} = Ok p0 ->
  exists p,
    main w args = Returned p
    /\ match_log p = []
    /\ results p = []
    /\ data p = args_input args.
Proof.
  intros Hmode Hshort Hp0. unfold main.
  assert (Hraw : (mode_name (args_mode args) =? "raw")%string = false)
    by (destruct (args_mode args); [contradiction | reflexivity ..]).
  rewrite Hraw. cbn [negb]. rewrite Hp0.
  apply init_state in Hp0.
  destruct Hp0
    as (_ & Hm & _ & Hidx & Hcur & _ & Hfmt & Hlog & Hsize & _).
  cbn [buffer_size kwargs_get] in Hsize.
  unfold append, data. rewrite Hcur, app_nil_l.
  rewrite set_data_unfold, Hm, Hraw, Hidx, Hsize. cbv zeta.
  rewrite py_slice_from by lia. cbn [Z.to_nat skipn].
  apply Z.leb_gt in Hshort. rewrite Hshort, andb_false_r.
  eexists. split; [reflexivity |]. unfold results, data. simpl.
  repeat split; assumption.
Qed.

Lemma main_short_input_is_not_scanned_witness :
  exists p,
    main (Fixture.world Fixture.dirty)
         {| args_mode := ModeFixedBuffer;
            args_input := Fixture.bytes_of "This is a dirty string.";
            args_rules := ["./test.rule"%string];
            args_compiled := false;
            args_size := 1024;
            args_step := 1 |}
    = Returned p
    /\ match_log p = []
    /\ results p = []
    /\ data p = Fixture.bytes_of "This is a dirty string.".
Proof.
  apply (main_short_input_is_not_scanned (Fixture.world Fixture.dirty)
           {| args_mode := ModeFixedBuffer;
              args_input := Fixture.bytes_of "This is a dirty string.";
              args_rules := ["./test.rule"%string];
              args_compiled := false;
              args_size := 1024;
              args_step := 1 |}
           (mkProcessor
              (Namespaces [("RuleFile0", "./test.rule")]%string)
              Fixture.dirty allowed_modes "fixed_buffer" 1024 1024
              [] [] [] None 0 0 [])).
  - discriminate.
  - vm_compute. reflexivity.
  - vm_compute. reflexivity.
Defined.

(** Property X25.  Run in fixed_buffer mode on an input of at least [--size]
    bytes (size at least 1), the script hands the matcher the input cut
    into consecutive pieces of at most [size] bytes, every byte once,
    and logs each record at its place in the input. *)
Theorem main_fixed_buffer_scans_input_once (w : World) (args : Args)
    (p0 : Processor) :
  args_mode args = ModeFixedBuffer ->
  1 <= args_size args <= len (args_input args) ->
  __init__ w (args_rules args) "fixed_buffer" (args_compiled args)
           {| buffer_size := Some (args_size args);
              window_step := Some (args_step args) |} = Ok p0 ->
  exists p,
    main w args = Returned p
    /\ concat (match_log p) = args_input args
    /\ (forall c, In c (match_log p) -> 1 <= len c <= args_size args)
    /\ results p = positional_records (_rules p0) 0 (match_log p).
Proof.
  intros Hmode [Hsize Hfull] Hp0. unfold main. rewrite Hmode.
  cbn [mode_name]. change ("fixed_buffer" =? "raw")%string with false.
  cbn [negb]. rewrite Hp0.
  pose proof (init_fixed_stream _ _ _ _ _ Hp0 Hsize) as Hinv.
  apply init_state in Hp0.
  destruct Hp0
    as (_ & Hm & _ & Hidx & Hcur & _ & _ & Hlog0 & Hsz & Hst).
  cbn [buffer_size kwargs_get] in Hsz, Hst.
  rewrite String.eqb_refl in Hst.
  destruct (append_keeps_fixed_stream p0 (args_input args) Hinv)
    as (q & Hq & Hstream).
  rewrite Hq. exists q. split; [reflexivity |].
  unfold append, data in Hq. rewrite Hcur, app_nil_l in Hq.
  assert (Hne : args_input args <> []).
  { intros Hempty. rewrite Hempty in Hfull.
    change (len (@nil ascii)) with 0 in Hfull. lia. }
  assert (Hpending : py_slice (args_input args) (_window_index p0) None
                     = args_input args).
  { rewrite Hidx. now rewrite py_slice_from by lia. }
  destruct (set_data_dispatches_windows p0 (args_input args))
    as (n & q' & Hq' & Hlog & Hidx' & Hbefore & _).
  { rewrite Hm. reflexivity. }
  { exact Hne. }
  { rewrite Hpending, Hsz. lia. }
  { rewrite Hst. lia. }
  assert (q' = q) by congruence. subst q'.
  destruct (set_data_frame _ _ _ Hq) as (Hcfg & Hdata & _).
  destruct Hstream as (_ & _ & _ & _ & Hcover & _ & Hfmt & _).
  rewrite Hidx', Hdata in Hcover.
  destruct Hcfg as (_ & Hrules & _).
  rewrite Hpending, Hsz, Hst in Hlog. rewrite Hpending, Hst in Hbefore.
  split; [| split].
  - rewrite Hcover. apply firstn_all2. unfold len. lia.
  - intros c Hc. rewrite Hlog, Hlog0 in Hc. cbn [app] in Hc.
    apply in_map_iff in Hc. destruct Hc as (k & <- & Hk).
    apply in_seq in Hk. specialize (Hbefore k ltac:(lia)).
    rewrite window_slice_len by lia. lia.
  - unfold results. rewrite Hfmt, Hrules. reflexivity.
Qed.

Lemma main_fixed_buffer_scans_input_once_witness :
  exists p,
    main (Fixture.world Fixture.whole)
         {| args_mode := ModeFixedBuffer;
            args_input := Fixture.bytes_of "123456789";
            args_rules := ["./test.rule"%string];
            args_compiled := false;
            args_size := 5;
            args_step := 1 |}
    = Returned p
    /\ concat (match_log p) = Fixture.bytes_of "123456789"
    /\ (forall c, In c (match_log p) -> 1 <= len c <= 5)
    /\ results p = positional_records Fixture.whole 0 (match_log p).
Proof.
  apply (main_fixed_buffer_scans_input_once (Fixture.world Fixture.whole)
           {| args_mode := ModeFixedBuffer;
              args_input := Fixture.bytes_of "123456789";
              args_rules := ["./test.rule"%string];
              args_compiled := false;
              args_size := 5;
              args_step := 1 |}
           (mkProcessor
              (Namespaces [("RuleFile0", "./test.rule")]%string)
              Fixture.whole allowed_modes "fixed_buffer" 5 5
              [] [] [] None 0 0 [])).
  - reflexivity.
  - vm_compute. split; discriminate.
  - vm_compute. reflexivity.
Defined.

(** ** Assigning rather than appending *)

(** Property X26.  The chunking only looks past the window index.  With a buffer
    size of at least 1, assigning to [data] a value no longer than the
    window index (for instance new data after a buffer of the same
    length has been consumed) stores the value and nothing more: the
    matcher is not called and none of it is ever scanned by that
    assignment. *)
Theorem short_assignment_is_not_scanned (p : Processor) (value : bytes) :
  1 <= _buffer_size p ->
  len value <= _window_index p ->
  set_data p value = Some (with_current p value)
  /\ match_log (with_current p value) = match_log p
  /\ results (with_current p value) = results p
  /\ _window_index (with_current p value) = _window_index p.
Proof.
  intros Hsize Hshort. split; [| repeat split].
  rewrite set_data_unfold. cbv zeta.
  pose proof (len_nonneg value).
  rewrite py_slice_from_len by lia.
  replace (_buffer_size p <=? Z.max 0 (len value - _window_index p))
    with false by (symmetry; apply Z.leb_gt; lia).
  rewrite andb_false_r.
  destruct (_processing_mode p =? "raw")%string; reflexivity.
Qed.

Lemma short_assignment_is_not_scanned_witness :
  exists p,
    set_data (Fixture.fresh Fixture.whole "fixed_buffer" 5 5)
             (Fixture.bytes_of "12345") = Some p
    /\ match_log p = [Fixture.bytes_of "12345"]
    /\ set_data p (Fixture.bytes_of "abcde")
       = Some (with_current p (Fixture.bytes_of "abcde"))
    /\ match_log (with_current p (Fixture.bytes_of "abcde"))
       = match_log p.
Proof.
  eexists. split; [vm_compute; reflexivity |].
  split; [vm_compute; reflexivity |].
  match goal with
  | |- set_data ?p ?v = _ /\ _ =>
      destruct (short_assignment_is_not_scanned p v) as (Hset & Hlog & _)
  end.
  - vm_compute. discriminate.
  - vm_compute. discriminate.
  - split; [exact Hset | exact Hlog].
Defined.

(** ** Instances of the properties above that have premises inside *)

Lemma validate_rule_files_first_failure_witness :
  validate_rule_files
    {| isfile := fun f => (f =? "a.rule")%string;
       can_open := fun _ => true;
       yara_compile := fun _ => Compiled Fixture.dirty;
       yara_load := fun _ => Compiled Fixture.dirty |}
    ["a.rule"; "b.rule"; "c.rule"]%string
  = Raise (IOError ENOENT "Cannot find file." "b.rule").
Proof.
  apply (proj2 (validate_rule_files_first_failure
                  {| isfile := fun f => (f =? "a.rule")%string;
                     can_open := fun _ => true;
                     yara_compile := fun _ => Compiled Fixture.dirty;
                     yara_load := fun _ => Compiled Fixture.dirty |}
                  ["a.rule"; "b.rule"; "c.rule"]%string)
               ["a.rule"%string] "b.rule"%string ["c.rule"%string]).
  - reflexivity.
  - constructor; [split; reflexivity | constructor].
  - reflexivity.
Defined.


Lemma fixed_buffer_ignores_window_step_witness :
  _window_step (Fixture.fresh Fixture.whole "fixed_buffer" 5 5)
  = _buffer_size (Fixture.fresh Fixture.whole "fixed_buffer" 5 5)
  /\ _buffer_size (Fixture.fresh Fixture.whole "fixed_buffer" 5 5)
     = kwargs_get (Some 5) 1024.
Proof.
  apply (proj2 (fixed_buffer_ignores_window_step
                  (Fixture.world Fixture.whole) [] false
                  (Some 5) (Some 2) None)).
  vm_compute. reflexivity.
Defined.

Lemma analyze_frame_witness :
  _offset (fst (analyze (Fixture.fresh Fixture.whole "fixed_buffer" 5 5)
                        (Some (Fixture.bytes_of "123"))))
  = _offset (Fixture.fresh Fixture.whole "fixed_buffer" 5 5).
Proof.
  apply (analyze_frame (Fixture.fresh Fixture.whole "fixed_buffer" 5 5)
                       (Some (Fixture.bytes_of "123"))).
  simpl. discriminate.
Defined.

Lemma set_data_hangs_iff_witness :
  set_data (Fixture.fresh Fixture.whole "sliding_window" 5 0)
           (Fixture.bytes_of "12345") = None.
Proof.
  apply (proj2 (set_data_hangs_iff
                  (Fixture.fresh Fixture.whole "sliding_window" 5 0)
                  (Fixture.bytes_of "12345"))).
  - simpl. discriminate.
  - vm_compute. split; discriminate.
  - reflexivity.
Defined.

Lemma str_of_processor_witness :
  exists message,
    __str__ "yaraprocessor"
            (mkProcessor (CompiledFile "./test_compiled.rule")
               Fixture.dirty allowed_modes "raw" 1024 1
               [] [] [] None 0 0 [])
    = AttributeError message.
Proof.
  apply (proj1 (str_of_processor (Fixture.world Fixture.dirty) "raw"
                  Fixture.no_kwargs "yaraprocessor")
               ["./test_compiled.rule"%string]).
  - vm_compute. reflexivity.
  - simpl. intros [H | []]. discriminate H.
Defined.
